(** * TypeDoc: the application driver and the declaration reflection

    A shallow embedding of [src/lib/application.ts] ([Application.convert],
    [Application.generateJson], [Application.expandInputFiles]) and of the
    compiled [DeclarationReflection] model class ([getAllSignatures],
    [traverse], [toObject]), with the properties of the specification that
    concern them.

    Conventions.
    - A JavaScript object used as a record is an association list in
      insertion order ([obj_set] is the assignment [o.k = v]).
    - A property that may be [undefined] is an [option]; a conditional on
      such a property follows JavaScript truthiness ([Some] of an object or
      of an array, also an empty one, is truthy; the empty string is not).
    - The logger, the converter, the serializer hooks and the file writer
      are observed through the events a method emits; an uncaught exception
      is the [Thrown] outcome. *)

From Stdlib Require Import ZArith List Bool Lia Ascii.
From stdpp Require Import base option list strings gmap pretty.

Set Warnings "-register-all".

Local Open Scope Z_scope.
Local Open Scope string_scope.
Local Open Scope list_scope.

(** ** JavaScript values and objects *)

Inductive JsonValue : Type :=
| JNull
| JBool (b : bool)
| JNum (n : Z)
| JStr (s : string)
| JArr (items : list JsonValue)
| JObj (fields : list (string * JsonValue)).

(** [o.k], [None] when the object has no own property [k]. *)
Fixpoint obj_get {V : Type} (k : string) (o : list (string * V)) : option V :=
  match o with
  | [] => None
  | (k', v) :: rest => if String.eqb k k' then Some v else obj_get k rest
  end.

(** [o.k = v]: an existing property keeps its place, a new one goes last. *)
Fixpoint obj_set {V : Type} (k : string) (v : V) (o : list (string * V))
  : list (string * V) :=
  match o with
  | [] => [(k, v)]
  | (k', v') :: rest =>
      if String.eqb k k' then (k, v) :: rest else (k', v') :: obj_set k v rest
  end.

(** The object spread [{...a, ...b}]. *)
Definition obj_spread {V : Type} (a b : list (string * V)) : list (string * V) :=
  fold_left (fun acc kv => obj_set (fst kv) (snd kv) acc) b a.

(** [o.k] read through a continuation, so that a recursive reader of a
    nested value stays structural. *)
Definition obj_get_with {V A : Type} (k : string) (f : V -> A) (d : A)
  : list (string * V) -> A :=
  fix go (o : list (string * V)) : A :=
    match o with
    | [] => d
    | (k', v) :: rest => if String.eqb k k' then f v else go rest
    end.

(** Truthiness of a string: only the empty string is falsy. *)
Definition truthy_string (s : string) : bool :=
  match s with
  | EmptyString => false
  | String _ _ => true
  end.

(** [Array.prototype.forEach] with a callback acting on some state. *)
Definition forEach {A S : Type} (l : list A) (f : A -> S -> S) (s : S) : S :=
  fold_left (fun acc a => f a acc) l s.

(** ** The reflection model *)

Module Reflection.
Record t : Type := mk { id : Z; name : string; kind : Z }.
End Reflection.

Record TypeParameterReflection : Type :=
  mkTypeParameterReflection { tp_self : Reflection.t }.

Record SignatureReflection : Type :=
  mkSignatureReflection { sig_self : Reflection.t }.

(** The type descriptions a declaration refers to.  Only [ReflectionType]
    is told apart by the code ([instanceof]); it carries the declaration of
    an inline type literal. *)
Inductive SomeType (D : Type) : Type :=
| ReflectionType (declaration : D)
| IntrinsicType (name : string)
| ReferenceType (name : string) (target : option Z).
Arguments ReflectionType {D} declaration.
Arguments IntrinsicType {D} name.
Arguments ReferenceType {D} name target.

Inductive DeclarationReflection : Type := mkDeclarationReflection {
  self : Reflection.t;
  children : option (list DeclarationReflection);
  typeParameters : option (list TypeParameterReflection);
  type : option (SomeType DeclarationReflection);
  signatures : option (list SignatureReflection);
  indexSignature : option SignatureReflection;
  getSignature : option SignatureReflection;
  setSignature : option SignatureReflection;
  defaultValue : option string;
  overwrites : option (SomeType DeclarationReflection);
  inheritedFrom : option (SomeType DeclarationReflection);
  extendedTypes : option (list (SomeType DeclarationReflection));
  extendedBy : option (list (SomeType DeclarationReflection));
  implementedTypes : option (list (SomeType DeclarationReflection));
  implementedBy : option (list (SomeType DeclarationReflection));
  implementationOf : option (SomeType DeclarationReflection)
}.

Abbreviation TypeDesc := (SomeType DeclarationReflection).

Record ProjectReflection : Type := mkProjectReflection {
  project_self : Reflection.t;
  project_children : option (list DeclarationReflection)
}.

(** Any reflection, as a visitor receives it. *)
Inductive AnyReflection : Type :=
| OfDeclaration (d : DeclarationReflection)
| OfSignature (s : SignatureReflection)
| OfTypeParameter (p : TypeParameterReflection).

Inductive TraverseProperty : Type :=
| Children
| TypeLiteral
| TypeParameter
| Signatures
| IndexSignature
| GetSignature
| SetSignature.


(** *** [DeclarationReflection.prototype.getAllSignatures]

    JavaScript arrays are objects with identity: [concat] builds a new
    array and [push] changes the one it is called on.  The method is
    embedded over a store of arrays, in which the reflection holds a
    reference to its [signatures] array, so that the arrays it writes to
    can be told from the ones the reflection owns. *)

Module ArrayStore.

Abbreviation loc := positive.
Abbreviation store := (gmap positive (list SignatureReflection)).

(** The properties of [this] the method reads. *)
Record this_t : Type := mk_this {
  signatures : option loc;
  indexSignature : option SignatureReflection;
  getSignature : option SignatureReflection;
  setSignature : option SignatureReflection
}.

Definition contents (st : store) (a : loc) : list SignatureReflection :=
  default [] (st !! a).

(** An array literal: a new array. *)
Definition array_literal (items : list SignatureReflection) (st : store)
  : loc * store :=
  let a := fresh (dom st) in (a, <[a := items]> st).

(** [r.concat(a)]: a new array, the elements of [r] then those of [a]. *)
Definition array_concat (r a : loc) (st : store) : loc * store :=
  array_literal (contents st r ++ contents st a) st.

(** [r.push(x)]: the array [r] itself grows. *)
Definition array_push (r : loc) (x : SignatureReflection) (st : store) : store :=
  <[r := contents st r ++ [x]]> st.

Definition getAllSignatures (this : this_t) (st : store) : loc * store :=
  let '(result, st) := array_literal [] st in
  let '(result, st) :=
    match signatures this with
    | Some a => array_concat result a st
    | None => (result, st)
    end in
  let st :=
    match indexSignature this with
    | Some s => array_push result s st
    | None => st
    end in
  let st :=
    match getSignature this with
    | Some s => array_push result s st
    | None => st
    end in
  let st :=
    match setSignature this with
    | Some s => array_push result s st
    | None => st
    end in
  (result, st).

End ArrayStore.

(** The store [st] holds the declaration [d] as the object [this]. *)
Definition represents (st : ArrayStore.store) (this : ArrayStore.this_t)
  (d : DeclarationReflection) : Prop :=
  signatures d = ArrayStore.contents st <$> ArrayStore.signatures this
  /\ (forall a, ArrayStore.signatures this = Some a -> is_Some (st !! a))
  /\ indexSignature d = ArrayStore.indexSignature this
  /\ getSignature d = ArrayStore.getSignature this
  /\ setSignature d = ArrayStore.setSignature this.

(** The list the method is said to return: the call signatures in their
    stored order, then the index, the get and the set signature, each when
    present. *)
Definition signatures_in_order (d : DeclarationReflection)
  : list SignatureReflection :=
  default [] (signatures d) ++ option_list (indexSignature d)
    ++ option_list (getSignature d) ++ option_list (setSignature d).

(** *** [DeclarationReflection.prototype.traverse]

    The visitor is a callback with effects on a state of its own; it
    returns normally and leaves the reflection it is shown as it is. *)

Definition Visitor (S : Type) : Type :=
  AnyReflection -> TraverseProperty -> S -> S.

(** Modelled from the spec: [ContainerReflection.prototype.traverse], the
    super call of [traverse], is not under src; the container traversal
    shows the visitor the ordinary children. *)
Definition ContainerReflection_traverse {S : Type}
  (this : DeclarationReflection) (callback : Visitor S) (s : S) : S :=
  match children this with
  | Some cs => forEach cs (fun c => callback (OfDeclaration c) Children) s
  | None => s
  end.

Definition traverse {S : Type} (this : DeclarationReflection)
  (callback : Visitor S) (s : S) : S :=
  let s :=
    match typeParameters this with
    | Some ps =>
        forEach ps (fun parameter => callback (OfTypeParameter parameter) TypeParameter) s
    | None => s
    end in
  let s :=
    match type this with
    | Some (ReflectionType declaration) =>
        callback (OfDeclaration declaration) TypeLiteral s
    | _ => s
    end in
  let s :=
    match signatures this with
    | Some sigs =>
        forEach sigs (fun signature => callback (OfSignature signature) Signatures) s
    | None => s
    end in
  let s :=
    match indexSignature this with
    | Some i => callback (OfSignature i) IndexSignature s
    | None => s
    end in
  let s :=
    match getSignature this with
    | Some g => callback (OfSignature g) GetSignature s
    | None => s
    end in
  let s :=
    match setSignature this with
    | Some g => callback (OfSignature g) SetSignature s
    | None => s
    end in
  ContainerReflection_traverse this callback s.

(** The visitor that records what it is shown, in order. *)
Definition record_visit : Visitor (list (AnyReflection * TraverseProperty)) :=
  fun child property seen => seen ++ [(child, property)].

(** The structural children of a declaration with their role tags, in the
    order the specification gives: type parameters, the type literal, the call
    signatures, the index, get and set signature. *)
Definition structural_children (this : DeclarationReflection)
  : list (AnyReflection * TraverseProperty) :=
  map (fun p => (OfTypeParameter p, TypeParameter)) (default [] (typeParameters this))
  ++ match type this with
     | Some (ReflectionType declaration) => [(OfDeclaration declaration, TypeLiteral)]
     | _ => []
     end
  ++ map (fun s => (OfSignature s, Signatures)) (default [] (signatures this))
  ++ map (fun s => (OfSignature s, IndexSignature)) (option_list (indexSignature this))
  ++ map (fun s => (OfSignature s, GetSignature)) (option_list (getSignature this))
  ++ map (fun s => (OfSignature s, SetSignature)) (option_list (setSignature this)).

Definition ordinary_children (this : DeclarationReflection)
  : list (AnyReflection * TraverseProperty) :=
  map (fun c => (OfDeclaration c, Children)) (default [] (children this)).

(** *** [DeclarationReflection.prototype.toObject] *)

(** [Type.prototype.toObject] of the type descriptions is not under src:
    it is a parameter of the export. *)
Class TypeExport : Type := { Type_toObject : TypeDesc -> JsonValue }.

(** Modelled from the spec: [ContainerReflection.prototype.toObject], the
    super call of [toObject], is not under src.  The serialized form is a
    plain nested keyed structure mirroring the reflection tree: [id],
    [name], [kind], and the reflections below this one as arrays
    ([children[]], [signatures[]] and so on), a field being present only
    when non-empty.  [groups] are these arrays, already exported, each
    with its key.  The [flags] and the [comment] of the spec are not in
    the reflections modelled here and are left out; none of the keys put
    is one [toObject] assigns. *)
Definition ContainerReflection_toObject (this : Reflection.t)
  (groups : list (string * list JsonValue)) : list (string * JsonValue) :=
  fold_left
    (fun result group =>
       match group.2 with
       | [] => result
       | _ :: _ => obj_set group.1 (JArr group.2) result
       end)
    groups
    [("id", JNum (Reflection.id this));
     ("name", JStr (Reflection.name this));
     ("kind", JNum (Reflection.kind this))].

(** Modelled from the spec: the export of a reflection that has no
    reflection below it, as signatures and type parameters are here
    (their [toObject] is not under src). *)
Definition Reflection_toObject (this : Reflection.t) : JsonValue :=
  JObj (ContainerReflection_toObject this []).

(** Modelled from the spec: the export of a signature. *)
Definition SignatureReflection_toObject (s : SignatureReflection) : JsonValue :=
  Reflection_toObject (sig_self s).

(** Modelled from the spec: the export of a type parameter. *)
Definition TypeParameterReflection_toObject (p : TypeParameterReflection)
  : JsonValue :=
  Reflection_toObject (tp_self p).

(** Modelled from the spec: the reflections below a declaration that the
    super call exports, each array under the name of the property that
    holds it; the declaration of a type literal is exported with the
    [type]. *)
Definition declaration_groups (this : DeclarationReflection)
  (exported_children : list JsonValue) : list (string * list JsonValue) :=
  [("typeParameters",
    map TypeParameterReflection_toObject (default [] (typeParameters this)));
   ("signatures", map SignatureReflection_toObject (default [] (signatures this)));
   ("indexSignature",
    map SignatureReflection_toObject (option_list (indexSignature this)));
   ("getSignature", map SignatureReflection_toObject (option_list (getSignature this)));
   ("setSignature", map SignatureReflection_toObject (option_list (setSignature this)));
   ("children", exported_children)].

(** The body of [toObject] after the super call, on the record [result]
    the super call returned. *)
Definition toObject_fields `{TypeExport} (this : DeclarationReflection)
  (result : list (string * JsonValue)) : list (string * JsonValue) :=
  let result :=
    match type this with
    | Some t => obj_set "type" (Type_toObject t) result
    | None => result
    end in
  let result :=
    match defaultValue this with
    | Some v => if truthy_string v then obj_set "defaultValue" (JStr v) result else result
    | None => result
    end in
  let result :=
    match overwrites this with
    | Some t => obj_set "overwrites" (Type_toObject t) result
    | None => result
    end in
  let result :=
    match inheritedFrom this with
    | Some t => obj_set "inheritedFrom" (Type_toObject t) result
    | None => result
    end in
  let result :=
    match extendedTypes this with
    | Some ts => obj_set "extendedTypes" (JArr (map Type_toObject ts)) result
    | None => result
    end in
  let result :=
    match extendedBy this with
    | Some ts => obj_set "extendedBy" (JArr (map Type_toObject ts)) result
    | None => result
    end in
  let result :=
    match implementedTypes this with
    | Some ts => obj_set "implementedTypes" (JArr (map Type_toObject ts)) result
    | None => result
    end in
  let result :=
    match implementedBy this with
    | Some ts => obj_set "implementedBy" (JArr (map Type_toObject ts)) result
    | None => result
    end in
  let result :=
    match implementationOf this with
    | Some t => obj_set "implementationOf" (Type_toObject t) result
    | None => result
    end in
  result.

Fixpoint toObject `{TypeExport} (this : DeclarationReflection) : JsonValue :=
  let result :=
    ContainerReflection_toObject (self this)
      (declaration_groups this
         (match children this with
          | Some cs => map toObject cs
          | None => []
          end)) in
  JObj (toObject_fields this result).

(** The export of the project root, a container. *)
Definition ProjectReflection_toObject `{TypeExport} (project : ProjectReflection)
  : JsonValue :=
  JObj (ContainerReflection_toObject (project_self project)
          [("children",
            match project_children project with
            | Some cs => map toObject cs
            | None => []
            end)]).

(** The nine optional fields of the export and what the reflection holds
    for each: the exported value when the field's condition holds. *)
Definition optional_field `{TypeExport} (this : DeclarationReflection)
  (k : string) : option JsonValue :=
  if String.eqb k "type" then Type_toObject <$> type this
  else if String.eqb k "defaultValue" then
    v ← defaultValue this; if truthy_string v then Some (JStr v) else None
  else if String.eqb k "overwrites" then Type_toObject <$> overwrites this
  else if String.eqb k "inheritedFrom" then Type_toObject <$> inheritedFrom this
  else if String.eqb k "extendedTypes" then
    (fun ts => JArr (map Type_toObject ts)) <$> extendedTypes this
  else if String.eqb k "extendedBy" then
    (fun ts => JArr (map Type_toObject ts)) <$> extendedBy this
  else if String.eqb k "implementedTypes" then
    (fun ts => JArr (map Type_toObject ts)) <$> implementedTypes this
  else if String.eqb k "implementedBy" then
    (fun ts => JArr (map Type_toObject ts)) <$> implementedBy this
  else if String.eqb k "implementationOf" then Type_toObject <$> implementationOf this
  else None.

Definition optional_keys : list string :=
  ["type"; "defaultValue"; "overwrites"; "inheritedFrom"; "extendedTypes";
   "extendedBy"; "implementedTypes"; "implementedBy"; "implementationOf"].

(** *** Reloading an export

    Modelled from the spec: no loader is under src.  Reloading reads the
    serialized form back into an in-memory shape: [id], [name] and [kind]
    of each record and, in the order of the arrays, the reflections below
    it with their roles: type parameters, the declaration of a type
    literal, signatures, index, get and set signature, children (an
    absent field is no reflection).  The declaration of a type literal
    comes with the exported [type]; [Type.prototype.toObject] not being
    under src, the loader of types is a parameter, [reload_type], which
    gives the shape of the declaration a type description holds, if it
    holds one. *)

Inductive Shape : Type :=
| ShapeNode (id : Z) (name : string) (kind : Z)
    (parts : list (TraverseProperty * Shape)).

Definition shape_parts (s : Shape) : list (TraverseProperty * Shape) :=
  match s with
  | ShapeNode _ _ _ parts => parts
  end.

Definition tagged (role : TraverseProperty) (l : list Shape)
  : list (TraverseProperty * Shape) :=
  map (fun s => (role, s)) l.

(** The shape of a reflection with no reflection below it. *)
Definition leaf_shape (r : Reflection.t) : Shape :=
  ShapeNode (Reflection.id r) (Reflection.name r) (Reflection.kind r) [].

Definition reload_num (o : list (string * JsonValue)) (k : string) : option Z :=
  match obj_get k o with
  | Some (JNum n) => Some n
  | _ => None
  end.

Definition reload_str (o : list (string * JsonValue)) (k : string) : option string :=
  match obj_get k o with
  | Some (JStr s) => Some s
  | _ => None
  end.

(** Modelled from the spec: the array under [k], reloaded element by
    element; no array is no reflection. *)
Definition reload_group (reload : JsonValue -> option Shape) (k : string)
  (o : list (string * JsonValue)) : option (list Shape) :=
  obj_get_with k
    (fun c =>
       match c with
       | JArr items => mapM reload items
       | _ => None
       end)
    (Some []) o.

(** Modelled from the spec: the loader of a record of the serialized
    form. *)
Fixpoint reload (reload_type : JsonValue -> option (option Shape))
  (v : JsonValue) : option Shape :=
  match v with
  | JObj o =>
      i ← reload_num o "id";
      n ← reload_str o "name";
      k ← reload_num o "kind";
      typeParameters ← reload_group (reload reload_type) "typeParameters" o;
      literal ← match obj_get "type" o with
                | Some t => reload_type t
                | None => Some None
                end;
      signatures ← reload_group (reload reload_type) "signatures" o;
      index ← reload_group (reload reload_type) "indexSignature" o;
      get ← reload_group (reload reload_type) "getSignature" o;
      set ← reload_group (reload reload_type) "setSignature" o;
      children ← reload_group (reload reload_type) "children" o;
      Some (ShapeNode i n k
              (tagged TypeParameter typeParameters
               ++ tagged TypeLiteral (option_list literal)
               ++ tagged Signatures signatures
               ++ tagged IndexSignature index
               ++ tagged GetSignature get
               ++ tagged SetSignature set
               ++ tagged Children children))
  | _ => None
  end.

(** The shape of the in-memory tree: every reflection [traverse] shows,
    with its role, in the order of the visits. *)
Fixpoint shape_of (d : DeclarationReflection) : Shape :=
  ShapeNode (Reflection.id (self d)) (Reflection.name (self d))
    (Reflection.kind (self d))
    (tagged TypeParameter
       (map (fun p => leaf_shape (tp_self p)) (default [] (typeParameters d)))
     ++ tagged TypeLiteral
          (match type d with
           | Some (ReflectionType declaration) => [shape_of declaration]
           | _ => []
           end)
     ++ tagged Signatures
          (map (fun s => leaf_shape (sig_self s)) (default [] (signatures d)))
     ++ tagged IndexSignature
          (map (fun s => leaf_shape (sig_self s)) (option_list (indexSignature d)))
     ++ tagged GetSignature
          (map (fun s => leaf_shape (sig_self s)) (option_list (getSignature d)))
     ++ tagged SetSignature
          (map (fun s => leaf_shape (sig_self s)) (option_list (setSignature d)))
     ++ tagged Children
          (match children d with
           | Some cs => map shape_of cs
           | None => []
           end)).

(** The shape of the declaration a type description holds. *)
Definition type_literal_shape (t : TypeDesc) : option Shape :=
  match t with
  | ReflectionType declaration => Some (shape_of declaration)
  | _ => None
  end.

Definition project_shape (p : ProjectReflection) : Shape :=
  ShapeNode (Reflection.id (project_self p)) (Reflection.name (project_self p))
    (Reflection.kind (project_self p))
    (tagged Children
       (match project_children p with
        | Some cs => map shape_of cs
        | None => []
        end)).

(** The role of a visit and the identity of the reflection visited. *)
Definition visit_identity (visit : AnyReflection * TraverseProperty)
  : TraverseProperty * (Z * string * Z) :=
  let r :=
    match visit.1 with
    | OfDeclaration d => self d
    | OfSignature s => sig_self s
    | OfTypeParameter p => tp_self p
    end in
  (visit.2, (Reflection.id r, Reflection.name r, Reflection.kind r)).

Definition part_identity (part : TraverseProperty * Shape)
  : TraverseProperty * (Z * string * Z) :=
  match part.2 with
  | ShapeNode i n k _ => (part.1, (i, n, k))
  end.

(** ** Effects: emitted events and uncaught exceptions *)

Inductive Outcome (A : Type) : Type :=
| Returned (a : A)
| Thrown (error : string).
Arguments Returned {A} a.
Arguments Thrown {A} error.

(** A computation returns or throws, and emits events on the way. *)
Definition Eff (E A : Type) : Type := (Outcome A * list E)%type.

#[export] Instance Eff_ret {E : Type} : MRet (Eff E) :=
  fun A a => (Returned a, []).

#[export] Instance Eff_bind {E : Type} : MBind (Eff E) :=
  fun A B k m =>
    match m with
    | (Returned a, events) => let '(o, events') := k a in (o, events ++ events')
    | (Thrown e, events) => (Thrown e, events)
    end.

Definition emit {E : Type} (e : E) : Eff E unit := (Returned tt, [e]).

Definition throw {E A : Type} (error : string) : Eff E A := (Thrown error, []).

Definition lift_outcome {E A : Type} (o : Outcome A) : Eff E A := (o, []).

Definition when {E : Type} (b : bool) (m : Eff E unit) : Eff E unit :=
  if b then m else mret tt.

(** [forEach] with a callback that updates [acc] and may log or throw: a
    throw ends the loop. *)
Fixpoint forEachM {E A S : Type} (l : list A) (f : A -> S -> Eff E S) (acc : S)
  : Eff E S :=
  match l with
  | [] => mret acc
  | a :: rest => acc' ← f a acc; forEachM rest f acc'
  end.

(** ** The TypeScript compiler, the platform and the utilities *)

Record Diagnostic : Type := mkDiagnostic { code : Z; messageText : string }.

Abbreviation CompilerOptions := (list (string * JsonValue)).

Record ProjectReference : Type := mkProjectReference { path : string }.

Module ParsedCommandLine.
Record t : Type := mk {
  options : CompilerOptions;
  fileNames : list string;
  projectReferences : option (list ProjectReference)
}.
End ParsedCommandLine.

Record ResolvedProjectReference : Type :=
  mkResolvedProjectReference { commandLine : ParsedCommandLine.t }.

Module CreateProgramOptions.
Record t : Type := mk {
  rootNames : list string;
  options : CompilerOptions;
  projectReferences : option (list ProjectReference)
}.
End CreateProgramOptions.

(** The [typescript] module, as far as the application uses it. *)
Class TypeScript (Program : Type) : Type := {
  version : string;
  versionMajorMinor : string;
  JsxEmit_React : Z;
  ModuleKind_ESNext : Z;
  ScriptTarget_ESNext : Z;
  createProgram : CreateProgramOptions.t -> Program;
  getRootFileNames : Program -> list string;
  getResolvedProjectReferences :
    Program -> option (list (option ResolvedProjectReference));
  getPreEmitDiagnostics : Program -> list Diagnostic
}.

(** What [FS.statSync] reports. *)
Record Stats : Type := mkStats { isDirectory : bool }.

(** What the file system holds at a path: a file, a directory with its
    entries, a directory that cannot be listed ([readdirSync] throws), or
    something [statSync] throws on. *)
Inductive FsNode : Type :=
| FsFile
| FsDir (entries : list (string * FsNode))
| FsDirUnreadable
| FsNoStat.

Definition statSync (node : FsNode) : option Stats :=
  match node with
  | FsFile => Some (mkStats false)
  | FsDir _ | FsDirUnreadable => Some (mkStats true)
  | FsNoStat => None
  end.

(** The [path] and [fs] modules and the built-ins the application calls.
    [fs_at p] is what the file system holds at the path [p], [None] when
    nothing exists there. *)
Class Platform : Type := {
  Path_resolve : string -> string;
  Path_join : string -> string -> string;
  Path_dirname : string -> string;
  Path_basename : string -> string;
  require_resolve : string -> string;
  fs_at : string -> option FsNode;
  writeFile_error : string -> string -> option string;
  JSON_stringify : JsonValue -> string -> string
}.

Definition existsSync `{Platform} (p : string) : bool :=
  bool_decide (is_Some (fs_at p)).

(** The utilities of TypeDoc that are not under src ([normalizePath],
    [createMinimatch] and the matchers it builds) and the supported
    versions read from the peer dependencies of [package.json]. *)
Class Utils : Type := {
  normalizePath : string -> string;
  Minimatch : Type;
  createMinimatch : list string -> list Minimatch;
  mm_match : Minimatch -> string -> bool;
  supportedVersionMajorMinor : list string
}.

(** [flatMap] of [utils/array] is not under src: it is taken to map and
    concatenate, as its name and its use say. *)
Definition flatMap {A B : Type} (arr : list A) (fn : A -> list B) : list B :=
  flat_map fn arr.

Definition IGNORED_DIAGNOSTICS : list Z :=
  [1208; 1375; 1103; 2306; 2691; 2792; 5009; 5055; 5070; 7016].

(** [Array.prototype.includes] on numbers. *)
Definition includes (l : list Z) (x : Z) : bool := existsb (Z.eqb x) l.

(** Truthiness of an option value that may be absent. *)
Definition truthy (v : option JsonValue) : bool :=
  match v with
  | None | Some JNull => false
  | Some (JBool b) => b
  | Some (JNum n) => negb (Z.eqb n 0)
  | Some (JStr s) => truthy_string s
  | Some (JArr _) | Some (JObj _) => true
  end.

(** [s.endsWith(suffix)] *)
Definition endsWith (s suffix : string) : bool :=
  let n := String.length s in
  let m := String.length suffix in
  Nat.leb m n && String.eqb (String.substring (n - m)%nat m s) suffix.

(** The regular expressions [/\.tsx?$/] and [/\.[tj]sx?$/], tested. *)
Definition regex_ts (file : string) : bool :=
  endsWith file ".ts" || endsWith file ".tsx".

Definition regex_tjs (file : string) : bool :=
  endsWith file ".ts" || endsWith file ".tsx"
  || endsWith file ".js" || endsWith file ".jsx".

Definition tab : string := String (Ascii.ascii_of_nat 9) EmptyString.

(** ** The application *)

Section Application.
Context {Program : Type} `{TypeScript Program} `{Platform} `{Utils} `{TypeExport}.

Inductive LogLevel : Type := Verbose | Warn | Error | Success.

(** What the run of a method does to the rest of the system. *)
Inductive Event : Type :=
| Log (level : LogLevel) (message : string) (args : list string)
| LogDiagnostics (errors : list Diagnostic)
| ConverterConvert (inputFiles : list string) (programs : list Program)
| SerializerBegin (project : ProjectReflection) (data : option (list (string * JsonValue)))
| SerializerEnd (project : ProjectReflection) (data : option (list (string * JsonValue)))
| WriteFile (file : string) (content : string).

(** [this.options], as the application reads it. *)
Record Options : Type := mkOptions {
  getCompilerOptions : CompilerOptions;
  getFileNames : list string;
  getProjectReferences : option (list ProjectReference)
}.

(** The fields of an [Application] the three methods use; [converter] is
    [this.converter.convert]. *)
Record Application : Type := mkApplication {
  options : Options;
  entryPoints : list string;
  exclude : list string;
  converter : list string -> list Program -> option ProjectReflection
}.

Definition getTypeScriptPath : string :=
  Path_dirname (require_resolve "typescript").

Definition getTypeScriptVersion : string := version.

(** *** [expandInputFiles] *)

Definition isExcluded (exclude : list Minimatch) (fileName : string) : bool :=
  existsb (fun mm => mm_match mm fileName) exclude.

Definition supportedFileRegex (this : Application) : string -> bool :=
  if truthy (obj_get "allowJs" (getCompilerOptions (options this)))
     || truthy (obj_get "checkJs" (getCompilerOptions (options this)))
  then regex_tjs
  else regex_ts.

(** [FS.readdirSync(file).forEach], over the entries of a directory. *)
Definition readdir_forEach {S : Type}
  (f : string -> FsNode -> S -> Outcome S)
  : list (string * FsNode) -> S -> Outcome S :=
  fix each (entries : list (string * FsNode)) (acc : S) : Outcome S :=
    match entries with
    | [] => Returned acc
    | (next, node) :: rest =>
        match f next node acc with
        | Returned acc' => each rest acc'
        | Thrown e => Thrown e
        end
    end.

(** The local function [add].  [node] is what the file system holds at
    [file]; [files] is the array the function pushes to. *)
Fixpoint add (exclude : list Minimatch) (supported : string -> bool)
  (node : FsNode) (file : string) (entryPoint : bool) (files : list string)
  : Outcome (list string) :=
  match statSync node with
  | None => Returned files
  | Some stats =>
      let fileIsDir := isDirectory stats in
      let file :=
        if fileIsDir && negb (endsWith file "/") then file +:+ "/" else file in
      if negb entryPoint && isExcluded exclude (normalizePath file) then
        Returned files
      else if fileIsDir then
        match node with
        | FsDir entries =>
            readdir_forEach
              (fun next child => add exclude supported child (Path_join file next) false)
              entries files
        | _ => Thrown "readdirSync"
        end
      else if supported file then Returned (files ++ [normalizePath file])
      else Returned files
  end.

Definition missing_entry_point (file : string) : string :=
  "Provided entry point " +:+ file
    +:+ " does not exist and will not be included in the docs.".

(** The body of [inputFiles.forEach]. *)
Definition expand_entry (this : Application) (file : string)
  (files : list string) : Eff Event (list string) :=
  let resolved := Path_resolve file in
  match fs_at resolved with
  | None =>
      emit (Log Warn (missing_entry_point file) []);;
      mret files
  | Some node =>
      lift_outcome
        (add (createMinimatch (exclude this)) (supportedFileRegex this)
           node resolved true files)
  end.

Definition expandInputFiles (this : Application) (inputFiles : list string)
  : Eff Event (list string) :=
  forEachM inputFiles (expand_entry this) [].

(** *** [convert] *)

Definition SNAPSHOT_COMPILE_OPTIONS : CompilerOptions :=
  [("esModuleInterop", JBool true);
   ("jsx", JNum JsxEmit_React);
   ("module", JNum ModuleKind_ESNext);
   ("noEmit", JBool true);
   ("strict", JBool true);
   ("target", JNum ScriptTarget_ESNext)].

Definition primary_program (this : Application) : Program :=
  createProgram
    (CreateProgramOptions.mk
       (getFileNames (options this))
       (obj_spread (getCompilerOptions (options this)) SNAPSHOT_COMPILE_OPTIONS)
       (getProjectReferences (options this))).

Definition reference_program (ref : ResolvedProjectReference) : Program :=
  createProgram
    (CreateProgramOptions.mk
       (ParsedCommandLine.fileNames (commandLine ref))
       (obj_spread (ParsedCommandLine.options (commandLine ref))
          SNAPSHOT_COMPILE_OPTIONS)
       (ParsedCommandLine.projectReferences (commandLine ref))).

(** The loop over [resolvedReferences ?? []]: an [undefined] reference is
    passed over, any other pushes one program. *)
Definition push_reference_programs
  (resolvedReferences : option (list (option ResolvedProjectReference)))
  (programs : list Program) : list Program :=
  fold_left
    (fun programs ref =>
       match ref with
       | None => programs
       | Some ref => programs ++ [reference_program ref]
       end)
    (default [] resolvedReferences) programs.

(** The programs [convert] works on. *)
Definition create_programs (this : Application) : Eff Event (list Program) :=
  let programs := [primary_program this] in
  if Nat.eqb (length (getRootFileNames (primary_program this))) 0 then
    emit (Log Verbose
            "tsconfig appears to be a solution style tsconfig - creating programs for references"
            []);;
    mret (push_reference_programs
            (getResolvedProjectReferences (primary_program this)) programs)
  else mret programs.

Definition emitFunc (program : Program) : list Diagnostic :=
  List.filter (fun d => negb (includes IGNORED_DIAGNOSTICS (code d)))
    (getPreEmitDiagnostics program).

Definition unsupported_version : string :=
  "You are running with an unsupported TypeScript version! TypeDoc supports "
    +:+ String.concat ", " supportedVersionMajorMinor.

Definition no_compiler_options : string :=
  "No compiler options set. This likely means that TypeDoc did not find your tsconfig.json. Generated documentation will probably be empty.".

Definition convert (this : Application) : Eff Event (option ProjectReflection) :=
  emit (Log Verbose "Using TypeScript %s from %s"
          [getTypeScriptVersion; getTypeScriptPath]);;
  when (negb (existsb (fun version => String.eqb version versionMajorMinor)
                supportedVersionMajorMinor))
    (emit (Log Warn unsupported_version []));;
  when (Nat.eqb (length (getCompilerOptions (options this))) 0)
    (emit (Log Warn no_compiler_options []));;
  programs ← create_programs this;
  emit (Log Verbose
          ("Converting with " +:+ pretty (length programs) +:+ " programs") []);;
  let errors := flatMap programs emitFunc in
  if negb (Nat.eqb (length errors) 0) then
    emit (LogDiagnostics errors);;
    mret None
  else
    inputFiles ← expandInputFiles this (entryPoints this);
    emit (ConverterConvert inputFiles programs);;
    mret (converter this inputFiles programs).

(** *** [generateJson] *)

(** The hook data handed to the serializer: [{ begin, end }]. *)
Record SerializeEventData : Type := mkSerializeEventData {
  begin_data : option (list (string * JsonValue));
  end_data : option (list (string * JsonValue))
}.

(** Modelled from the spec: [Serializer.projectToObject] is not under
    src.  The lifecycle hooks [begin] and [end] fire once each around a
    full export pass and pass the caller-supplied metadata through; they
    carry no conversion logic, so the export is that of the project. *)
Definition projectToObject (project : ProjectReflection)
  (eventData : SerializeEventData) : Eff Event JsonValue :=
  emit (SerializerBegin project (begin_data eventData));;
  let output := ProjectReflection_toObject project in
  emit (SerializerEnd project (end_data eventData));;
  mret output.

(** [FS.promises.writeFile], awaited: a rejection is thrown. *)
Definition writeFile (file content : string) : Eff Event unit :=
  match writeFile_error file content with
  | Some e => throw e
  | None => emit (WriteFile file content)
  end.

Definition generateJson (this : Application) (project : ProjectReflection)
  (out : string) : Eff Event unit :=
  let out := Path_resolve out in
  let eventData :=
    [("outputDirectory", JStr (Path_dirname out));
     ("outputFile", JStr (Path_basename out))] in
  ser ← projectToObject project
          (mkSerializeEventData (Some eventData) (Some eventData));
  writeFile out (JSON_stringify ser tab);;
  emit (Log Success "JSON written to %s" [out]).

(** *** Notions of the specification

    The definitions below are not functions of the source: they say what
    the specification speaks of, and the theorems relate them to the
    embeddings above. *)

(** The project references of a program that resolved. *)
Definition resolved_references (program : Program)
  : list ResolvedProjectReference :=
  omap (fun ref => ref) (default [] (getResolvedProjectReferences program)).

(** The programs of a conversion request: the primary program and, when
    it has no root file, one more program for each resolved reference. *)
Definition programs_of (this : Application) : list Program :=
  primary_program this
  :: (if Nat.eqb (length (getRootFileNames (primary_program this))) 0
      then map reference_program (resolved_references (primary_program this))
      else []).

(** Some program of the request has a pre-emit diagnostic whose code is
    not on the ignore list. *)
Definition blocking_diagnostics (this : Application) : bool :=
  existsb
    (fun program =>
       existsb (fun d => negb (includes IGNORED_DIAGNOSTICS (code d)))
         (getPreEmitDiagnostics program))
    (programs_of this).

(** The invocations of the converter among some events. *)
Definition converter_calls (events : list Event)
  : list (list string * list Program) :=
  omap (fun ev =>
          match ev with
          | ConverterConvert inputFiles programs => Some (inputFiles, programs)
          | _ => None
          end) events.

Definition supported_version : bool :=
  existsb (fun version => String.eqb version versionMajorMinor)
    supportedVersionMajorMinor.

(** What [convert] logs before it looks at the diagnostics, but for the
    warning about the version. *)
Definition convert_log_after_version (this : Application) : list Event :=
  (if Nat.eqb (length (getCompilerOptions (options this))) 0
   then [Log Warn no_compiler_options []] else [])
  ++ (if Nat.eqb (length (getRootFileNames (primary_program this))) 0
      then [Log Verbose
              "tsconfig appears to be a solution style tsconfig - creating programs for references"
              []]
      else [])
  ++ [Log Verbose
        ("Converting with " +:+ pretty (length (programs_of this)) +:+ " programs")
        []].

Definition convert_log (this : Application) : list Event :=
  Log Verbose "Using TypeScript %s from %s" [getTypeScriptVersion; getTypeScriptPath]
  :: (if supported_version then [] else [Log Warn unsupported_version []])
  ++ convert_log_after_version this.

(** The path [add] tests and lists: a directory gets a trailing slash. *)
Definition slashed (node : FsNode) (file : string) : string :=
  match statSync node with
  | Some stats =>
      if isDirectory stats && negb (endsWith file "/") then file +:+ "/" else file
  | None => file
  end.

(** Processing a path, once it is let through: a supported file is
    listed, a directory is read and its entries are added as discovered
    paths. *)
Definition process (exclude : list Minimatch) (supported : string -> bool)
  (node : FsNode) (file : string) (files : list string) : Outcome (list string) :=
  match node with
  | FsNoStat => Returned files
  | FsFile =>
      if supported file then Returned (files ++ [normalizePath file])
      else Returned files
  | FsDir entries =>
      readdir_forEach
        (fun next child =>
           add exclude supported child (Path_join (slashed node file) next) false)
        entries files
  | FsDirUnreadable => Thrown "readdirSync"
  end.

Definition missing_warning (file : string) : Event :=
  Log Warn (missing_entry_point file) [].

End Application.

(** The same compiler reporting another [versionMajorMinor]. *)
Definition with_versionMajorMinor {Program : Type} (T : TypeScript Program)
  (v : string) : TypeScript Program :=
  {| version := @version _ T;
     versionMajorMinor := v;
     JsxEmit_React := @JsxEmit_React _ T;
     ModuleKind_ESNext := @ModuleKind_ESNext _ T;
     ScriptTarget_ESNext := @ScriptTarget_ESNext _ T;
     createProgram := @createProgram _ T;
     getRootFileNames := @getRootFileNames _ T;
     getResolvedProjectReferences := @getResolvedProjectReferences _ T;
     getPreEmitDiagnostics := @getPreEmitDiagnostics _ T |}.

(** *** Helpers of the statements about [toObject] *)

(** A guarded assignment [if (x) { result.k = f(x); }]. *)
Definition assign_if {A : Type} (x : option A) (k : string) (f : A -> JsonValue)
  (result : list (string * JsonValue)) : list (string * JsonValue) :=
  match x with
  | Some a => obj_set k (f a) result
  | None => result
  end.

Definition truthy_defaultValue (this : DeclarationReflection) : option string :=
  v ← defaultValue this; if truthy_string v then Some v else None.

(** The record [toObject] builds. *)
Definition exported_record `{TypeExport} (this : DeclarationReflection)
  : list (string * JsonValue) :=
  toObject_fields this
    (ContainerReflection_toObject (self this)
       (declaration_groups this
          (match children this with
           | Some cs => map toObject cs
           | None => []
           end))).


(** ** Concrete data for the examples *)

(** A declaration with nothing but its identity. *)
Definition plain_declaration (r : Reflection.t) : DeclarationReflection :=
  mkDeclarationReflection r None None None None None None None None
    None None None None None None None.

(** An export of type descriptions, for the examples. *)
Definition example_TypeExport : TypeExport :=
  {| Type_toObject := fun t =>
       match t with
       | ReflectionType d =>
           JObj [("type", JStr "reflection"); ("id", JNum (Reflection.id (self d)))]
       | IntrinsicType n => JObj [("type", JStr "intrinsic"); ("name", JStr n)]
       | ReferenceType n _ => JObj [("type", JStr "reference"); ("name", JStr n)]
       end |}.

(** A type export that writes the declaration of a type literal out in
    full, as the shape of its tree, and the loader of types that reads it
    back. *)
Definition role_code (role : TraverseProperty) : Z :=
  match role with
  | Children => 0
  | TypeLiteral => 1
  | TypeParameter => 2
  | Signatures => 3
  | IndexSignature => 4
  | GetSignature => 5
  | SetSignature => 6
  end.

Definition code_role (code : Z) : option TraverseProperty :=
  match code with
  | 0 => Some Children
  | 1 => Some TypeLiteral
  | 2 => Some TypeParameter
  | 3 => Some Signatures
  | 4 => Some IndexSignature
  | 5 => Some GetSignature
  | 6 => Some SetSignature
  | _ => None
  end.

Fixpoint shape_json (s : Shape) : JsonValue :=
  match s with
  | ShapeNode i n k parts =>
      JArr [JNum i; JStr n; JNum k;
            JArr (map (fun part =>
                         match part with
                         | (role, below) => JArr [JNum (role_code role); shape_json below]
                         end)
                    parts)]
  end.

Fixpoint json_shape (v : JsonValue) : option Shape :=
  match v with
  | JArr [JNum i; JStr n; JNum k; JArr parts] =>
      parts ← mapM (fun part =>
                      match part with
                      | JArr [JNum code; below] =>
                          role ← code_role code;
                          below ← json_shape below;
                          Some (role, below)
                      | _ => None
                      end)
                 parts;
      Some (ShapeNode i n k parts)
  | _ => None
  end.

Definition literal_TypeExport : TypeExport :=
  {| Type_toObject := fun t =>
       match t with
       | ReflectionType d =>
           JObj [("type", JStr "reflection"); ("declaration", shape_json (shape_of d))]
       | IntrinsicType n => JObj [("type", JStr "intrinsic"); ("name", JStr n)]
       | ReferenceType n _ => JObj [("type", JStr "reference"); ("name", JStr n)]
       end |}.

Definition literal_reload_type (v : JsonValue) : option (option Shape) :=
  match v with
  | JObj o =>
      match obj_get "declaration" o with
      | Some declaration => below ← json_shape declaration; Some (Some below)
      | None => Some None
      end
  | _ => None
  end.

(** A class that lists no base type: its [extendedTypes] is an array that
    is there and empty. *)
Definition class_without_bases : DeclarationReflection :=
  mkDeclarationReflection (Reflection.mk 7 "Widget" 128)
    None None None None None None None None
    None None (Some []) None None None None.



Definition sig_call_1 : SignatureReflection :=
  mkSignatureReflection (Reflection.mk 11 "render" 4096).
Definition sig_call_2 : SignatureReflection :=
  mkSignatureReflection (Reflection.mk 12 "render" 4096).
Definition sig_get : SignatureReflection :=
  mkSignatureReflection (Reflection.mk 13 "__get" 524288).

(** A declaration with two call signatures and a get signature. *)
Definition overloaded_declaration : DeclarationReflection :=
  mkDeclarationReflection (Reflection.mk 10 "render" 64)
    None None None (Some [sig_call_1; sig_call_2]) None (Some sig_get) None None
    None None None None None None None.

(** A project with every kind of reflection below it: a class with a type
    parameter, an overloaded method with a get signature, and a property
    whose type is a literal with a call signature, an index signature, a
    set signature and a member. *)
Definition example_tree : ProjectReflection :=
  mkProjectReflection (Reflection.mk 0 "typedoc" 1)
    (Some
       [mkDeclarationReflection (Reflection.mk 20 "Renderer" 128)
          (Some
             [overloaded_declaration;
              mkDeclarationReflection (Reflection.mk 30 "options" 1024)
                None None
                (Some (ReflectionType
                   (mkDeclarationReflection (Reflection.mk 31 "__type" 65536)
                      (Some [plain_declaration (Reflection.mk 32 "theme" 1024)])
                      None None
                      (Some [mkSignatureReflection (Reflection.mk 33 "__call" 4096)])
                      (Some (mkSignatureReflection (Reflection.mk 34 "__index" 8192)))
                      None
                      (Some (mkSignatureReflection (Reflection.mk 35 "__set" 1048576)))
                      None None None None None None None None)))
                None None None None None None None None None None None None])
          (Some [mkTypeParameterReflection (Reflection.mk 21 "T" 131072)])
          None None None None None None None None None None None None None]).

(** The same declaration as an object whose [signatures] array is at
    address 1 of a store that holds one more array. *)
Definition overloaded_object : ArrayStore.this_t :=
  ArrayStore.mk_this (Some 1%positive) None (Some sig_get) None.

Definition example_store : ArrayStore.store :=
  <[1%positive := [sig_call_1; sig_call_2]]> (<[2%positive := [sig_get]]> ∅).

(** A compiler for the examples: a program is the options it was created
    from; a root file named [bad.ts] has a type error (TS2322), one named
    [await.ts] a diagnostic of the ignore list (TS1375); the project
    references of the examples resolve to [core], nothing, and [cli]. *)
Record ExampleProgram : Type :=
  mkExampleProgram { program_options : CreateProgramOptions.t }.

Definition example_references : list (option ResolvedProjectReference) :=
  [Some (mkResolvedProjectReference
           (ParsedCommandLine.mk [] ["/work/core/index.ts"] None));
   None;
   Some (mkResolvedProjectReference
           (ParsedCommandLine.mk [] ["/work/cli/main.ts"; "/work/cli/await.ts"] None))].

Definition example_diagnostics (file : string) : list Diagnostic :=
  if endsWith file "bad.ts" then
    [mkDiagnostic 2322 "Type 'string' is not assignable to type 'number'."]
  else if endsWith file "await.ts" then
    [mkDiagnostic 1375 "'await' expressions are only allowed at the top level of a file when that file is a module."]
  else [].

Definition example_TypeScript : TypeScript ExampleProgram :=
  {| version := "4.1.3";
     versionMajorMinor := "4.1";
     JsxEmit_React := 2;
     ModuleKind_ESNext := 99;
     ScriptTarget_ESNext := 99;
     createProgram := mkExampleProgram;
     getRootFileNames := fun p => CreateProgramOptions.rootNames (program_options p);
     getResolvedProjectReferences := fun p =>
       match CreateProgramOptions.projectReferences (program_options p) with
       | Some (_ :: _) => Some example_references
       | _ => None
       end;
     getPreEmitDiagnostics := fun p =>
       flat_map example_diagnostics
         (CreateProgramOptions.rootNames (program_options p)) |}.

Fixpoint has_slash (s : string) : bool :=
  match s with
  | EmptyString => false
  | String c rest => Ascii.eqb c "/"%char || has_slash rest
  end.

(** The part of a path after its last slash, and the part before it. *)
Fixpoint example_basename (s : string) : string :=
  match s with
  | EmptyString => EmptyString
  | String c rest =>
      if has_slash rest then example_basename rest
      else if Ascii.eqb c "/"%char then rest
      else s
  end.

Definition example_dirname (s : string) : string :=
  String.substring 0
    (String.length s - String.length (example_basename s) - 1) s.

Definition example_src_generated : FsNode := FsDir [("api.ts", FsFile)].

Definition example_src : FsNode :=
  FsDir [("index.ts", FsFile); ("util.tsx", FsFile); ("notes.md", FsFile);
         ("legacy.js", FsFile); ("generated", example_src_generated);
         ("dangling", FsNoStat)].

(** A platform for the examples, with the working directory [/work]. *)
Definition example_Platform : Platform :=
  {| Path_resolve := fun p => if String.prefix "/" p then p else "/work/" +:+ p;
     Path_join := fun a b => a +:+ b;
     Path_dirname := example_dirname;
     Path_basename := example_basename;
     require_resolve := fun _ => "/work/node_modules/typescript/lib/typescript.js";
     fs_at := fun p =>
       if String.eqb p "/work/src" then Some example_src
       else if String.eqb p "/work/src/index.ts" then Some FsFile
       else if String.eqb p "/work/src/generated" then Some example_src_generated
       else if String.eqb p "/work/src/generated/api.ts" then Some FsFile
       else if String.eqb p "/work/secret" then Some FsDirUnreadable
       else None;
     writeFile_error := fun _ _ => None;
     JSON_stringify := fun v _ =>
       match v with
       | JObj fields => "{" +:+ String.concat "," (map fst fields) +:+ "}"
       | _ => "null"
       end |}.

(** Utilities for the examples: paths are normal as they are, and a
    pattern matches the paths it is a prefix of. *)
Definition example_Utils : Utils :=
  {| normalizePath := fun p => p;
     Minimatch := string;
     createMinimatch := fun patterns => patterns;
     mm_match := fun pattern file => String.prefix pattern file;
     supportedVersionMajorMinor := ["3.9"; "4.0"; "4.1"] |}.

Definition example_converter (inputFiles : list string)
  (programs : list ExampleProgram) : option ProjectReflection :=
  Some (mkProjectReflection (Reflection.mk 0 "work" 0)
          (Some (map (fun f => plain_declaration (Reflection.mk 1 f 1)) inputFiles))).

(** An application documenting [/work/src], with a missing entry point
    and an entry point under the excluded directory. *)
Definition example_app : @Application ExampleProgram :=
  mkApplication
    (mkOptions [("strict", JBool true)] ["/work/src/index.ts"] None)
    ["src"; "missing.ts"; "src/generated/api.ts"]
    ["/work/src/generated/"]
    example_converter.

(** A solution-style configuration: no root file, three references. *)
Definition example_solution : @Application ExampleProgram :=
  mkApplication
    (mkOptions [("strict", JBool true)] []
       (Some [mkProjectReference "core"; mkProjectReference "gone";
              mkProjectReference "cli"]))
    ["src/index.ts"]
    []
    example_converter.

(** A request whose primary program has a type error. *)
Definition example_broken : @Application ExampleProgram :=
  mkApplication
    (mkOptions [("strict", JBool true)] ["/work/src/index.ts"; "/work/src/bad.ts"] None)
    ["src"]
    []
    example_converter.

(** ** Further functions of the sources *)

(** Whether a property that may be [undefined] is set to an object. *)
Definition present {A : Type} (x : option A) : bool :=
  match x with
  | Some _ => true
  | None => false
  end.

(** [DeclarationReflection.prototype.hasGetterOrSetter] *)
Definition hasGetterOrSetter (this : DeclarationReflection) : bool :=
  present (getSignature this) || present (setSignature this).

(** The signature a visit shows, when it shows one. *)
Definition visited_signature (visit : AnyReflection * TraverseProperty)
  : option SignatureReflection :=
  match visit.1 with
  | OfSignature s => Some s
  | _ => None
  end.

(** Whether the object has the own property [k]. *)
Definition has_key {V : Type} (k : string) (o : list (string * V)) : bool :=
  present (obj_get k o).

(** A run of guarded assignments [if (x) { result.k = v; }], in order. *)
Definition assign_all (fields : list (string * option JsonValue))
  (result : list (string * JsonValue)) : list (string * JsonValue) :=
  fold_left
    (fun r kv =>
       match kv.2 with
       | Some v => obj_set kv.1 v r
       | None => r
       end)
    fields result.

(** The outcome [o] of a run started on an empty array, for a run started
    on [files]. *)
Definition prepend {A : Type} (files : list A) (o : Outcome (list A))
  : Outcome (list A) :=
  match o with
  | Returned new => Returned (files ++ new)
  | Thrown e => Thrown e
  end.

(** Every directory of the tree can be listed. *)
Fixpoint listable (node : FsNode) : bool :=
  match node with
  | FsDir entries => forallb (fun entry => listable entry.2) entries
  | FsDirUnreadable => false
  | FsFile | FsNoStat => true
  end.

(** The application with [allowJs] set in its compiler options. *)
Definition allow_js {Program : Type} (this : @Application Program)
  : @Application Program :=
  mkApplication
    (mkOptions
       (obj_set "allowJs" (JBool true) (getCompilerOptions (options this)))
       (getFileNames (options this))
       (getProjectReferences (options this)))
    (entryPoints this) (exclude this) (converter this).

(** A listed file [f] is in order: it is the normal form of a path with a
    supported extension that no exclude pattern matches, unless the path
    is the entry point [entry] itself. *)
Definition listed_in_order `{Utils} (excl : list Minimatch)
  (supported : string -> bool) (entry : option string) (f : string) : Prop :=
  exists p, f = normalizePath p /\ supported p = true
            /\ (isExcluded excl f = false \/ entry = Some p).

(** Every entry point that exists is a tree whose directories can all be
    listed. *)
Definition entry_points_listable `{Platform} (inputFiles : list string) : bool :=
  forallb
    (fun e =>
       match fs_at (Path_resolve e) with
       | Some node => listable node
       | None => true
       end)
    inputFiles.

(** The second run does what the first does and may list more: both
    return, the first a sublist of the second, or both throw the same. *)
Definition lists_no_less (o1 o2 : Outcome (list string)) : Prop :=
  match o1, o2 with
  | Returned a, Returned b => a `sublist_of` b
  | Thrown e1, Thrown e2 => e1 = e2
  | _, _ => False
  end.

(** *** The supported versions

    [supportedVersionMajorMinor] is computed from the [typescript] range of
    the peer dependencies: the range is split at each [||], and in each
    part the matches of [/^\s*|\.x\s*$/g] are replaced by nothing.  A
    string is read as its code units, which are below 256 here. *)

(** The class [\s] on code units below 256. *)
Definition is_space (c : ascii) : bool :=
  let n := nat_of_ascii c in
  Nat.eqb n 9 || Nat.eqb n 10 || Nat.eqb n 11 || Nat.eqb n 12 || Nat.eqb n 13
  || Nat.eqb n 32 || Nat.eqb n 160.

Fixpoint all_space (s : string) : bool :=
  match s with
  | EmptyString => true
  | String c rest => is_space c && all_space rest
  end.

(** What is left of [s] after its leading white space. *)
Fixpoint skip_spaces (s : string) : string :=
  match s with
  | EmptyString => EmptyString
  | String c rest => if is_space c then skip_spaces rest else s
  end.

(** [s.split("||")], [current] being the part read so far. *)
Fixpoint split_bars (s : string) (current : string) : list string :=
  match s with
  | EmptyString => [current]
  | String c rest =>
      match rest with
      | String c' rest' =>
          if Ascii.eqb c "|"%char && Ascii.eqb c' "|"%char
          then current :: split_bars rest' EmptyString
          else split_bars rest (current +:+ String c EmptyString)
      | EmptyString => [current +:+ String c EmptyString]
      end
  end.

(** [\.x\s*$] matches at the head of [s]. *)
Definition matches_dotx_to_end (s : string) : bool :=
  match s with
  | String c (String c' rest) =>
      Ascii.eqb c "."%char && Ascii.eqb c' "x"%char && all_space rest
  | _ => false
  end.

(** [s] with the first match of [\.x\s*$] in it, if any, removed. *)
Fixpoint strip_dotx (s : string) : string :=
  if matches_dotx_to_end s then EmptyString
  else
    match s with
    | EmptyString => EmptyString
    | String c rest => String c (strip_dotx rest)
    end.

(** [version.replace(/^\s*|\.x\s*$/g, "")].  The first match is the
    leading white space, at the head; when it is empty the search goes on
    one code unit further, so that [\.x\s*$] is not tried at the head. *)
Definition replace_version (version : string) : string :=
  match version with
  | EmptyString => EmptyString
  | String c rest =>
      if is_space c then strip_dotx (skip_spaces rest)
      else String c (strip_dotx rest)
  end.

(** [supportedVersionMajorMinor] for the range [range] of the peer
    dependencies. *)
Definition supported_versions (range : string) : list string :=
  map replace_version (split_bars range EmptyString).

(** A part of a range that names a version: it is not empty, does not
    begin with white space and has no bar. *)
Fixpoint no_bar (s : string) : bool :=
  match s with
  | EmptyString => true
  | String c rest => negb (Ascii.eqb c "|"%char) && no_bar rest
  end.

Definition version_token (v : string) : bool :=
  match v with
  | EmptyString => false
  | String c _ => negb (is_space c) && no_bar v
  end.

Fixpoint no_x (s : string) : bool :=
  match s with
  | EmptyString => true
  | String c rest => negb (Ascii.eqb c "x"%char) && no_x rest
  end.

(** The parts of the range [v1.x || v2.x || ...], the first part after
    [lead]. *)
Fixpoint range_parts (lead : string) (vs : list string) : list string :=
  match vs with
  | [] => []
  | v :: vs' =>
      match vs' with
      | [] => [lead +:+ v +:+ ".x"]
      | _ :: _ => (lead +:+ v +:+ ".x" +:+ " ") :: range_parts " " vs'
      end
  end.

(** The same compiler, reporting only the pre-emit diagnostics whose code
    is not on the ignore list. *)
Definition without_ignored_diagnostics {Program : Type} (T : TypeScript Program)
  : TypeScript Program :=
  {| version := @version _ T;
     versionMajorMinor := @versionMajorMinor _ T;
     JsxEmit_React := @JsxEmit_React _ T;
     ModuleKind_ESNext := @ModuleKind_ESNext _ T;
     ScriptTarget_ESNext := @ScriptTarget_ESNext _ T;
     createProgram := @createProgram _ T;
     getRootFileNames := @getRootFileNames _ T;
     getResolvedProjectReferences := @getResolvedProjectReferences _ T;
     getPreEmitDiagnostics := fun program =>
       List.filter (fun d => negb (includes IGNORED_DIAGNOSTICS (code d)))
         (@getPreEmitDiagnostics _ T program) |}.

(** The run with more exclude patterns lists no more than the run with
    fewer, and returns when that run returns. *)
Definition lists_no_more (fewer more : Outcome (list string)) : Prop :=
  match fewer with
  | Returned b =>
      match more with
      | Returned a => a `sublist_of` b
      | Thrown _ => False
      end
  | Thrown _ => True
  end.

(** * Properties *)

(** ** Objects *)

(** Membership of a literal key in a literal list of keys, and its
    negation. *)
Ltac key_in_list :=
  repeat first [apply list_elem_of_here | apply list_elem_of_further].

Ltac key_not_in_list :=
  let Hin := fresh "Hin" in
  intros Hin;
  repeat (apply elem_of_cons in Hin as [Hin|Hin]; [discriminate Hin|]);
  by apply elem_of_nil in Hin.

Lemma obj_get_set_eq {V : Type} (k : string) (v : V) (o : list (string * V)) :
  obj_get k (obj_set k v o) = Some v.
Proof.
  induction o as [|[k' v'] o IH]; simpl.
  - by rewrite String.eqb_refl.
  - destruct (String.eqb k k') eqn:E; simpl.
    + by rewrite String.eqb_refl.
    + by rewrite E.
Qed.

Lemma obj_get_set_ne {V : Type} (k k' : string) (v : V) (o : list (string * V)) :
  k <> k' -> obj_get k' (obj_set k v o) = obj_get k' o.
Proof.
  intros Hne. induction o as [|[k0 v0] o IH]; simpl.
  - destruct (String.eqb k' k) eqn:E; [|done].
    apply String.eqb_eq in E. congruence.
  - destruct (String.eqb k k0) eqn:E; simpl.
    + apply String.eqb_eq in E. subst k0.
      destruct (String.eqb k' k) eqn:E'; [|done].
      apply String.eqb_eq in E'. congruence.
    + by rewrite IH.
Qed.

Lemma obj_get_with_get {V A : Type} (k : string) (f : V -> A) (d : A)
  (o : list (string * V)) :
  obj_get_with k f d o = from_option f d (obj_get k o).
Proof.
  induction o as [|[k' v'] o IH]; simpl; [done|].
  by destruct (String.eqb k k').
Qed.

(** ** [getAllSignatures] *)

Section GetAllSignatures.
Import ArrayStore.

Lemma contents_insert_eq (st : store) (a : loc) (l : list SignatureReflection) :
  contents (<[a := l]> st) a = l.
Proof. unfold contents. by rewrite lookup_insert_eq. Qed.

Lemma contents_insert_ne (st : store) (a b : loc) (l : list SignatureReflection) :
  a <> b -> contents (<[a := l]> st) b = contents st b.
Proof. intros. unfold contents. by rewrite lookup_insert_ne. Qed.

Lemma fresh_unallocated (st : store) : st !! fresh (dom st) = None.
Proof. apply not_elem_of_dom, is_fresh. Qed.

(** One optional [push] on [result]: the array grows by the signature when
    it is there, and no other array changes. *)
Lemma push_if_present (result : loc) (o : option SignatureReflection) (st : store) :
  let st' :=
    match o with
    | Some s => array_push result s st
    | None => st
    end in
  (is_Some (st !! result) -> st' !! result = Some (contents st result ++ option_list o))
  /\ (forall l, l <> result -> st' !! l = st !! l).
Proof.
  destruct o as [s|]; simpl; split.
  - intros _. unfold array_push. by rewrite lookup_insert_eq.
  - intros l Hl. unfold array_push. by rewrite lookup_insert_ne.
  - intros [x Hx]. unfold contents. rewrite Hx. simpl. by rewrite app_nil_r.
  - done.
Qed.

(** The array [result] after the three optional pushes. *)
Lemma three_pushes (result : loc) (i g s : option SignatureReflection)
  (items : list SignatureReflection) (st : store) :
  st !! result = Some items ->
  let st1 := match i with Some x => array_push result x st | None => st end in
  let st2 := match g with Some x => array_push result x st1 | None => st1 end in
  let st3 := match s with Some x => array_push result x st2 | None => st2 end in
  st3 !! result = Some (items ++ option_list i ++ option_list g ++ option_list s)
  /\ (forall l, l <> result -> st3 !! l = st !! l).
Proof.
  intros Hres st1 st2 st3.
  destruct (push_if_present result i st) as [E1 O1]. fold st1 in E1, O1.
  destruct (push_if_present result g st1) as [E2 O2]. fold st2 in E2, O2.
  destruct (push_if_present result s st2) as [E3 O3]. fold st3 in E3, O3.
  specialize (E1 (mk_is_Some _ _ Hres)).
  assert (C0 : contents st result = items) by (unfold contents; by rewrite Hres).
  rewrite C0 in E1.
  specialize (E2 (mk_is_Some _ _ E1)).
  assert (C1 : contents st1 result = items ++ option_list i)
    by (unfold contents; by rewrite E1).
  rewrite C1 in E2.
  specialize (E3 (mk_is_Some _ _ E2)).
  assert (C2 : contents st2 result = (items ++ option_list i) ++ option_list g)
    by (unfold contents; by rewrite E2).
  rewrite C2 in E3.
  split.
  - rewrite E3. f_equal. by rewrite <- !app_assoc.
  - intros l Hl. rewrite O3, O2, O1; done.
Qed.

End GetAllSignatures.

(** C10.  For a declaration held in a store of arrays, [getAllSignatures]
    returns an array that was not there before and holds the call
    signatures in their stored order, then the index signature, then the
    get signature, then the set signature, each present one once and the
    absent ones left out; every array that was there before, the
    reflection's own [signatures] among them, is as it was, and the store
    still holds the same declaration. *)
Theorem getAllSignatures_in_order_no_mutation
  (st : ArrayStore.store) (this : ArrayStore.this_t) (d : DeclarationReflection) :
  represents st this d ->
  st !! (ArrayStore.getAllSignatures this st).1 = None
  /\ (ArrayStore.getAllSignatures this st).2 !! (ArrayStore.getAllSignatures this st).1
     = Some (signatures_in_order d)
  /\ (forall l, is_Some (st !! l) ->
        (ArrayStore.getAllSignatures this st).2 !! l = st !! l)
  /\ represents (ArrayStore.getAllSignatures this st).2 this d.
Proof.
  intros (Hsig & Halloc & Hi & Hg & Hs).
  assert (Hcore :
    st !! (ArrayStore.getAllSignatures this st).1 = None
    /\ (ArrayStore.getAllSignatures this st).2 !! (ArrayStore.getAllSignatures this st).1
       = Some (signatures_in_order d)
    /\ (forall l, is_Some (st !! l) ->
          (ArrayStore.getAllSignatures this st).2 !! l = st !! l)).
  { unfold ArrayStore.getAllSignatures, signatures_in_order.
    rewrite Hsig, Hi, Hg, Hs.
    destruct this as [sigs i g s]; simpl in *.
    set (r0 := fresh (dom st)).
    assert (F0 : st !! r0 = None) by apply fresh_unallocated.
    destruct sigs as [a|]; cbn [ArrayStore.signatures ArrayStore.indexSignature
      ArrayStore.getSignature ArrayStore.setSignature fmap option_fmap option_map default from_option].
    - destruct (Halloc a eq_refl) as [items Ha].
      assert (a <> r0) by (intros ->; congruence).
      unfold ArrayStore.array_concat, ArrayStore.array_literal.
      set (st1 := <[r0 := []]> st).
      set (r1 := fresh (dom st1)).
      assert (F1 : st1 !! r1 = None) by apply fresh_unallocated.
      assert (r1 <> r0).
      { intros E. rewrite E in F1. unfold st1 in F1.
        by rewrite lookup_insert_eq in F1. }
      assert (F1' : st !! r1 = None).
      { unfold st1 in F1. by rewrite lookup_insert_ne in F1. }
      assert (C0 : ArrayStore.contents st1 r0 = []).
      { unfold st1. apply contents_insert_eq. }
      assert (C1 : ArrayStore.contents st1 a = ArrayStore.contents st a).
      { unfold st1. by apply contents_insert_ne. }
      rewrite C0, C1. simpl app.
      pose proof (three_pushes r1 i g s (ArrayStore.contents st a)
                    (<[r1 := ArrayStore.contents st a]> st1)
                    (lookup_insert_eq _ _ _)) as [E O].
      cbv zeta in E, O. cbn [fst snd].
      split; [done|]. split; [exact E|].
      intros l [x Hl]. etrans; [apply O; intros ->; congruence|].
      rewrite lookup_insert_ne by (intros <-; congruence).
      unfold st1. rewrite lookup_insert_ne by (intros <-; congruence). done.
    - unfold ArrayStore.array_literal. fold r0.
      pose proof (three_pushes r0 i g s [] (<[r0 := []]> st)
                    (lookup_insert_eq _ _ _)) as [E O].
      cbv zeta in E, O. cbn [fst snd].
      split; [done|]. split; [exact E|].
      intros l [x Hl]. etrans; [apply O; intros ->; congruence|].
      rewrite lookup_insert_ne by (intros <-; congruence). done. }
  destruct Hcore as (Hfresh & Hres & Hkeep).
  repeat split; try done.
  - rewrite Hsig. destruct (ArrayStore.signatures this) as [a|] eqn:Ea; [|done].
    simpl. f_equal. unfold ArrayStore.contents.
    rewrite Hkeep; [done|]. by apply Halloc.
  - intros a Ha. rewrite Hkeep; by apply Halloc.
Qed.

(** ** [traverse] *)

Lemma forEach_app {A S : Type} (l1 l2 : list A) (f : A -> S -> S) (s : S) :
  forEach (l1 ++ l2) f s = forEach l2 f (forEach l1 f s).
Proof. unfold forEach. apply fold_left_app. Qed.

Lemma forEach_map {A B S : Type} (g : A -> B) (l : list A) (f : B -> S -> S) (s : S) :
  forEach (map g l) f s = forEach l (fun a => f (g a)) s.
Proof.
  unfold forEach. revert s. induction l as [|a l IH]; intros s; simpl; [done|].
  apply IH.
Qed.

Lemma forEach_record (l : list (AnyReflection * TraverseProperty))
  (seen : list (AnyReflection * TraverseProperty)) :
  forEach l (fun cp => record_visit cp.1 cp.2) seen = seen ++ l.
Proof.
  unfold forEach. revert seen. induction l as [|[c p] l IH]; intros seen; simpl.
  - by rewrite app_nil_r.
  - rewrite IH. unfold record_visit. by rewrite <- app_assoc.
Qed.

(** The visits of [traverse] are those of its own structural children, in
    order, and then those of the container traversal. *)
Lemma traverse_unfold {S : Type} (this : DeclarationReflection)
  (callback : Visitor S) (s : S) :
  traverse this callback s
  = ContainerReflection_traverse this callback
      (forEach (structural_children this) (fun cp => callback cp.1 cp.2) s).
Proof.
  unfold traverse, structural_children. f_equal.
  rewrite !forEach_app, !forEach_map. simpl.
  destruct (typeParameters this) as [ps|], (type this) as [[decl|n|n t]|],
    (signatures this) as [sigs|], (indexSignature this) as [i|],
    (getSignature this) as [g|], (setSignature this) as [st|]; reflexivity.
Qed.

Lemma container_traverse_unfold {S : Type} (this : DeclarationReflection)
  (callback : Visitor S) (s : S) :
  ContainerReflection_traverse this callback s
  = forEach (ordinary_children this) (fun cp => callback cp.1 cp.2) s.
Proof.
  unfold ContainerReflection_traverse, ordinary_children.
  rewrite forEach_map. by destruct (children this).
Qed.

(** C6.  [traverse] calls the visitor once for each structural child, with
    the tag of its role: the type parameters first, then the declaration of
    an inline type literal, then the call signatures, then the index, the
    get and the set signature; only then does the container traversal run,
    on the state those calls left.  A visitor that records its calls has
    seen exactly these pairs, in this order, followed by the ordinary
    children. *)
Theorem traverse_structural_children_in_order :
  (forall (S : Type) (this : DeclarationReflection) (callback : Visitor S) (s : S),
      traverse this callback s
      = ContainerReflection_traverse this callback
          (forEach (structural_children this) (fun cp => callback cp.1 cp.2) s))
  /\ (forall this : DeclarationReflection,
        traverse this record_visit [] = structural_children this ++ ordinary_children this).
Proof.
  split.
  - intros. apply traverse_unfold.
  - intros this. rewrite traverse_unfold, container_traverse_unfold.
    by rewrite !forEach_record.
Qed.

(** ** [toObject] *)

Section ToObject.
Context `{TypeExport}.

Lemma obj_get_assign_if {A : Type} (x : option A) (k k' : string)
  (f : A -> JsonValue) (result : list (string * JsonValue)) :
  obj_get k' (assign_if x k f result)
  = if String.eqb k k' then
      match x with
      | Some a => Some (f a)
      | None => obj_get k' result
      end
    else obj_get k' result.
Proof.
  destruct (String.eqb k k') eqn:E.
  - apply String.eqb_eq in E. subst k'.
    destruct x; simpl; [apply obj_get_set_eq|done].
  - apply String.eqb_neq in E.
    destruct x; simpl; [by apply obj_get_set_ne|done].
Qed.

Lemma toObject_fields_assignments (this : DeclarationReflection)
  (result : list (string * JsonValue)) :
  toObject_fields this result
  = assign_if (implementationOf this) "implementationOf" Type_toObject
      (assign_if (implementedBy this) "implementedBy" (fun ts => JArr (map Type_toObject ts))
      (assign_if (implementedTypes this) "implementedTypes" (fun ts => JArr (map Type_toObject ts))
      (assign_if (extendedBy this) "extendedBy" (fun ts => JArr (map Type_toObject ts))
      (assign_if (extendedTypes this) "extendedTypes" (fun ts => JArr (map Type_toObject ts))
      (assign_if (inheritedFrom this) "inheritedFrom" Type_toObject
      (assign_if (overwrites this) "overwrites" Type_toObject
      (assign_if (truthy_defaultValue this) "defaultValue" JStr
      (assign_if (type this) "type" Type_toObject result)))))))).
Proof.
  unfold toObject_fields, truthy_defaultValue.
  destruct (defaultValue this) as [v|]; [|reflexivity].
  simpl. destruct (truthy_string v); reflexivity.
Qed.

(** What [toObject] leaves under one of the nine optional keys: the export
    of the field when its condition holds, else what [result] had. *)
Lemma toObject_fields_get (this : DeclarationReflection)
  (result : list (string * JsonValue)) :
  Forall
    (fun k =>
       obj_get k (toObject_fields this result)
       = match optional_field this k with
         | Some v => Some v
         | None => obj_get k result
         end)
    optional_keys.
Proof.
  rewrite toObject_fields_assignments.
  unfold optional_keys, optional_field.
  repeat constructor; rewrite !obj_get_assign_if; simpl;
    unfold truthy_defaultValue;
    destruct (defaultValue this) as [v|]; simpl;
    try destruct (truthy_string v); simpl;
    repeat match goal with
    | |- context [match ?x with _ => _ end] => destruct x; simpl; try done
    end.
  all: reflexivity.
Qed.

(** The other keys are passed through. *)
Lemma toObject_fields_keeps (this : DeclarationReflection)
  (result : list (string * JsonValue)) (k : string) :
  k ∉ optional_keys ->
  obj_get k (toObject_fields this result) = obj_get k result.
Proof.
  intros Hk. rewrite toObject_fields_assignments, !obj_get_assign_if.
  unfold optional_keys in Hk.
  repeat match goal with
  | |- context [String.eqb ?a k] =>
      let E := fresh in
      destruct (String.eqb a k) eqn:E;
        [apply String.eqb_eq in E; subst k; exfalso; apply Hk; key_in_list|]
  end.
  done.
Qed.

Lemma container_has_no_optional_key (this : DeclarationReflection)
  (cs : list JsonValue) :
  Forall
    (fun k =>
       obj_get k (ContainerReflection_toObject (self this) (declaration_groups this cs))
       = None)
    optional_keys.
Proof.
  unfold ContainerReflection_toObject, declaration_groups, optional_keys.
  destruct (map TypeParameterReflection_toObject _),
    (map SignatureReflection_toObject (default [] _)),
    (map SignatureReflection_toObject (option_list (indexSignature this))),
    (map SignatureReflection_toObject (option_list (getSignature this))),
    (map SignatureReflection_toObject (option_list (setSignature this))),
    cs; repeat constructor.
Qed.

Lemma toObject_record (this : DeclarationReflection) :
  toObject this = JObj (exported_record this).
Proof. by destruct this. Qed.

End ToObject.

(** C2, as the code has it.  Each of the nine optional fields is in the
    exported record exactly when the reflection's field passes the
    JavaScript condition guarding it (the field is set; for [defaultValue],
    set and not the empty string), and then holds the export of the field's
    value: an absent field and an empty default value are left out, never
    put as null, while a list field that is set is put as the array of its
    elements' exports, an empty list as an empty array. *)
Theorem toObject_optional_field_when_set `{TypeExport} (this : DeclarationReflection) :
  toObject this = JObj (exported_record this)
  /\ Forall (fun k => obj_get k (exported_record this) = optional_field this k)
       optional_keys.
Proof.
  split; [apply toObject_record|].
  unfold exported_record.
  set (base := ContainerReflection_toObject _ _).
  pose proof (toObject_fields_get this base) as Hget.
  pose proof (container_has_no_optional_key this
                (match children this with
                 | Some cs => map toObject cs
                 | None => []
                 end)) as Hbase.
  fold base in Hbase.
  rewrite Forall_forall in Hget, Hbase. apply Forall_forall.
  intros k Hk. rewrite (Hget k Hk), (Hbase k Hk).
  by destruct (optional_field this k).
Qed.

(** C2 as stated fails: a declaration whose [extendedTypes] is set and
    empty is exported with the field present, as an empty array. *)
Lemma toObject_emits_empty_extendedTypes :
  extendedTypes class_without_bases = Some []
  /\ @toObject example_TypeExport class_without_bases
     = JObj [("id", JNum 7); ("name", JStr "Widget"); ("kind", JNum 128);
             ("extendedTypes", JArr [])]
  /\ obj_get "extendedTypes" (@exported_record example_TypeExport class_without_bases)
     = Some (JArr []).
Proof. repeat split; reflexivity. Qed.

(** ** Export and reload *)

Lemma DeclarationReflection_children_ind (P : DeclarationReflection -> Prop) :
  (forall d, Forall P (default [] (children d)) -> P d) ->
  forall d, P d.
Proof.
  intros Hstep. fix IH 1. intros d. apply Hstep.
  destruct d as [r cs tps ty sigs i g s dv ow inh et eb it ib io]. simpl.
  destruct cs as [cs|]; simpl; [|constructor].
  induction cs as [|c cs IHcs]; constructor; [apply IH|exact IHcs].
Qed.

(** What the container export of a declaration has under its own keys. *)
Lemma container_record_get (this : DeclarationReflection) (cs : list JsonValue) :
  let base :=
    ContainerReflection_toObject (self this) (declaration_groups this cs) in
  let array (l : list JsonValue) :=
    match l with
    | [] => None
    | _ :: _ => Some (JArr l)
    end in
  obj_get "id" base = Some (JNum (Reflection.id (self this)))
  /\ obj_get "name" base = Some (JStr (Reflection.name (self this)))
  /\ obj_get "kind" base = Some (JNum (Reflection.kind (self this)))
  /\ obj_get "typeParameters" base
     = array (map TypeParameterReflection_toObject (default [] (typeParameters this)))
  /\ obj_get "signatures" base
     = array (map SignatureReflection_toObject (default [] (signatures this)))
  /\ obj_get "indexSignature" base
     = array (map SignatureReflection_toObject (option_list (indexSignature this)))
  /\ obj_get "getSignature" base
     = array (map SignatureReflection_toObject (option_list (getSignature this)))
  /\ obj_get "setSignature" base
     = array (map SignatureReflection_toObject (option_list (setSignature this)))
  /\ obj_get "children" base = array cs.
Proof.
  unfold ContainerReflection_toObject, declaration_groups.
  destruct (map TypeParameterReflection_toObject _),
    (map SignatureReflection_toObject (default [] _)),
    (map SignatureReflection_toObject (option_list (indexSignature this))),
    (map SignatureReflection_toObject (option_list (getSignature this))),
    (map SignatureReflection_toObject (option_list (setSignature this))),
    cs; repeat split.
Qed.

Section Reload.
Context `{TypeExport}.
Variable reload_type : JsonValue -> option (option Shape).

(** Reloading the array of a group that was put when non-empty. *)
Lemma reload_group_get (k : string) (o : list (string * JsonValue))
  (l : list JsonValue) (shapes : list Shape) :
  obj_get k o = match l with
                | [] => None
                | _ :: _ => Some (JArr l)
                end ->
  mapM (reload reload_type) l = Some shapes ->
  reload_group (reload reload_type) k o = Some shapes.
Proof.
  intros Hget Hl. unfold reload_group. rewrite obj_get_with_get, Hget.
  destruct l; exact Hl.
Qed.

Lemma reload_leaf (r : Reflection.t) :
  reload reload_type (Reflection_toObject r) = Some (leaf_shape r).
Proof. reflexivity. Qed.

Lemma mapM_reload_signatures (l : list SignatureReflection) :
  mapM (reload reload_type) (map SignatureReflection_toObject l)
  = Some (map (fun s => leaf_shape (sig_self s)) l).
Proof.
  induction l as [|s l IH]; [done|].
  cbn [map mapM].
  change (SignatureReflection_toObject s) with (Reflection_toObject (sig_self s)).
  rewrite reload_leaf. cbn [mbind option_bind]. rewrite IH. done.
Qed.

Lemma mapM_reload_typeParameters (l : list TypeParameterReflection) :
  mapM (reload reload_type) (map TypeParameterReflection_toObject l)
  = Some (map (fun p => leaf_shape (tp_self p)) l).
Proof.
  induction l as [|p l IH]; [done|].
  cbn [map mapM].
  change (TypeParameterReflection_toObject p) with (Reflection_toObject (tp_self p)).
  rewrite reload_leaf. cbn [mbind option_bind]. rewrite IH. done.
Qed.

Lemma mapM_reload_children (cs : list DeclarationReflection) :
  Forall (fun d => reload reload_type (toObject d) = Some (shape_of d)) cs ->
  mapM (reload reload_type) (map toObject cs) = Some (map shape_of cs).
Proof.
  induction 1 as [|d cs Hd _ IH]; [done|].
  cbn [map mapM]. rewrite Hd. simpl. rewrite IH. done.
Qed.

(** Reloading a record from what is under its keys. *)
Lemma reload_record (o : list (string * JsonValue)) (i : Z) (n : string) (k : Z)
  (typeParameters signatures index get set children : list Shape)
  (literal : option Shape) :
  obj_get "id" o = Some (JNum i) ->
  obj_get "name" o = Some (JStr n) ->
  obj_get "kind" o = Some (JNum k) ->
  reload_group (reload reload_type) "typeParameters" o = Some typeParameters ->
  match obj_get "type" o with
  | Some t => reload_type t
  | None => Some None
  end = Some literal ->
  reload_group (reload reload_type) "signatures" o = Some signatures ->
  reload_group (reload reload_type) "indexSignature" o = Some index ->
  reload_group (reload reload_type) "getSignature" o = Some get ->
  reload_group (reload reload_type) "setSignature" o = Some set ->
  reload_group (reload reload_type) "children" o = Some children ->
  reload reload_type (JObj o)
  = Some (ShapeNode i n k
            (tagged TypeParameter typeParameters
             ++ tagged TypeLiteral (option_list literal)
             ++ tagged Signatures signatures
             ++ tagged IndexSignature index
             ++ tagged GetSignature get
             ++ tagged SetSignature set
             ++ tagged Children children)).
Proof.
  intros Hid Hname Hkind Htps Hliteral Hsigs Hindex Hget Hset Hchildren.
  cbn [reload]. unfold reload_num, reload_str.
  rewrite Hid, Hname, Hkind, Htps, Hliteral, Hsigs, Hindex, Hget, Hset, Hchildren.
  reflexivity.
Qed.

Hypothesis reload_type_literal :
  forall t : TypeDesc, reload_type (Type_toObject t) = Some (type_literal_shape t).

Lemma shape_of_unfold (d : DeclarationReflection) :
  shape_of d
  = ShapeNode (Reflection.id (self d)) (Reflection.name (self d))
      (Reflection.kind (self d))
      (tagged TypeParameter
         (map (fun p => leaf_shape (tp_self p)) (default [] (typeParameters d)))
       ++ tagged TypeLiteral (option_list (type d ≫= type_literal_shape))
       ++ tagged Signatures
            (map (fun s => leaf_shape (sig_self s)) (default [] (signatures d)))
       ++ tagged IndexSignature
            (map (fun s => leaf_shape (sig_self s)) (option_list (indexSignature d)))
       ++ tagged GetSignature
            (map (fun s => leaf_shape (sig_self s)) (option_list (getSignature d)))
       ++ tagged SetSignature
            (map (fun s => leaf_shape (sig_self s)) (option_list (setSignature d)))
       ++ tagged Children (map shape_of (default [] (children d)))).
Proof.
  destruct d as [r [cs|] tps [[decl|n|n t]|] sigs i g s dv ow inh et eb it ib io];
    reflexivity.
Qed.

Lemma reload_toObject (d : DeclarationReflection) :
  reload reload_type (toObject d) = Some (shape_of d).
Proof.
  induction d as [d IH] using DeclarationReflection_children_ind.
  rewrite toObject_record, shape_of_unfold. unfold exported_record.
  set (cs := match children d with
             | Some cs => map toObject cs
             | None => []
             end).
  assert (Hcs : cs = map toObject (default [] (children d)))
    by (subst cs; by destruct (children d)).
  destruct (container_record_get d cs)
    as (Hid & Hname & Hkind & Htps & Hsigs & Hindex & Hget & Hset & Hchildren).
  pose proof (toObject_fields_get d
                (ContainerReflection_toObject (self d) (declaration_groups d cs)))
    as Hfields.
  pose proof (container_has_no_optional_key d cs) as Hbase.
  rewrite Forall_forall in Hfields, Hbase.
  assert (Htype : "type" ∈ optional_keys) by (unfold optional_keys; key_in_list).
  apply reload_record.
  - rewrite toObject_fields_keeps; [done|]. unfold optional_keys. key_not_in_list.
  - rewrite toObject_fields_keeps; [done|]. unfold optional_keys. key_not_in_list.
  - rewrite toObject_fields_keeps; [done|]. unfold optional_keys. key_not_in_list.
  - eapply reload_group_get; [|apply mapM_reload_typeParameters].
    rewrite toObject_fields_keeps; [done|]. unfold optional_keys. key_not_in_list.
  - rewrite (Hfields _ Htype), (Hbase _ Htype).
    unfold optional_field. simpl.
    destruct (type d) as [t|]; simpl; [apply reload_type_literal|done].
  - eapply reload_group_get; [|apply mapM_reload_signatures].
    rewrite toObject_fields_keeps; [done|]. unfold optional_keys. key_not_in_list.
  - eapply reload_group_get; [|apply mapM_reload_signatures].
    rewrite toObject_fields_keeps; [done|]. unfold optional_keys. key_not_in_list.
  - eapply reload_group_get; [|apply mapM_reload_signatures].
    rewrite toObject_fields_keeps; [done|]. unfold optional_keys. key_not_in_list.
  - eapply reload_group_get; [|apply mapM_reload_signatures].
    rewrite toObject_fields_keeps; [done|]. unfold optional_keys. key_not_in_list.
  - apply (reload_group_get _ _ cs); [|rewrite Hcs; by apply mapM_reload_children].
    rewrite toObject_fields_keeps; [done|]. unfold optional_keys. key_not_in_list.
Qed.

Lemma reload_project (project : ProjectReflection) :
  reload reload_type (ProjectReflection_toObject project)
  = Some (project_shape project).
Proof.
  destruct project as [r cs].
  unfold ProjectReflection_toObject, project_shape. cbn [project_self project_children].
  replace (match cs with Some cs0 => map toObject cs0 | None => [] end)
    with (map toObject (default [] cs)) by (by destruct cs).
  replace (match cs with Some cs0 => map shape_of cs0 | None => [] end)
    with (map shape_of (default [] cs)) by (by destruct cs).
  assert (Hchildren :
    mapM (reload reload_type) (map toObject (default [] cs))
    = Some (map shape_of (default [] cs))).
  { apply mapM_reload_children, Forall_forall. intros d _. apply reload_toObject. }
  set (exported := map toObject (default [] cs)) in *.
  assert (Hget : forall k,
    obj_get k (ContainerReflection_toObject r [("children", exported)])
    = if String.eqb k "children" then
        match exported with
        | [] => None
        | _ :: _ => Some (JArr exported)
        end
      else obj_get k [("id", JNum (Reflection.id r));
                      ("name", JStr (Reflection.name r));
                      ("kind", JNum (Reflection.kind r))]).
  { intros k. unfold ContainerReflection_toObject. cbn [fold_left fst snd].
    destruct exported.
    - destruct (String.eqb k "children") eqn:E; [|done].
      apply String.eqb_eq in E. by subst k.
    - destruct (String.eqb k "children") eqn:E.
      + apply String.eqb_eq in E. subst k. reflexivity.
      + rewrite obj_get_set_ne; [done|]. intros Heq. subst k.
        by rewrite String.eqb_refl in E. }
  etrans.
  - apply (reload_record _ (Reflection.id r) (Reflection.name r) (Reflection.kind r)
             [] [] [] [] [] (map shape_of (default [] cs)) None).
    all: try (rewrite Hget; reflexivity).
    all: try (apply (reload_group_get _ _ []); [rewrite Hget|]; reflexivity).
    apply (reload_group_get _ _ exported); [by rewrite Hget|exact Hchildren].
  - reflexivity.
Qed.

End Reload.

(** The visits of [traverse] and the parts of the shape name the same
    reflections, with the same roles, in the same order. *)
Lemma shape_parts_traverse (d : DeclarationReflection) :
  map part_identity (shape_parts (shape_of d))
  = map visit_identity (traverse d record_visit []).
Proof.
  rewrite traverse_unfold, container_traverse_unfold, !forEach_record.
  unfold structural_children, ordinary_children.
  destruct d as [r cs tps ty sigs i g s dv ow inh et eb it ib io].
  cbn [shape_of shape_parts children typeParameters type signatures
       indexSignature getSignature setSignature app].
  unfold tagged. rewrite !map_app, !map_map, <- !app_assoc.
  apply (f_equal2 app); [reflexivity|].
  apply (f_equal2 app); [by destruct ty as [[[] | |]|]|].
  do 4 (apply (f_equal2 app); [reflexivity|]).
  destruct cs as [cs|]; simpl; [|done]. rewrite map_map.
  apply map_ext. by intros [].
Qed.


(** ** Effects *)

Lemma Eff_bind_returned {E A B : Type} (a : A) (events : list E) (k : A -> Eff E B) :
  ((Returned a, events) : Eff E A) ≫= k = ((k a).1, events ++ (k a).2).
Proof. unfold mbind, Eff_bind. by destruct (k a). Qed.

Lemma Eff_bind_thrown {E A B : Type} (e : string) (events : list E) (k : A -> Eff E B) :
  ((Thrown e, events) : Eff E A) ≫= k = (Thrown e, events).
Proof. reflexivity. Qed.

Lemma Eff_bind_assoc {E A B C : Type} (m : Eff E A) (k : A -> Eff E B) (k' : B -> Eff E C) :
  (m ≫= k) ≫= k' = m ≫= (fun a => k a ≫= k').
Proof.
  unfold mbind, Eff_bind.
  destruct m as [[a|e] events]; [|reflexivity].
  destruct (k a) as [[b|e] events']; [|reflexivity].
  destruct (k' b) as [o events'']. by rewrite app_assoc.
Qed.

Lemma Eff_bind_ext {E A B : Type} (m : Eff E A) (k k' : A -> Eff E B) :
  (forall a, k a = k' a) -> m ≫= k = m ≫= k'.
Proof.
  intros Hk. destruct m as [[a|e] events]; [|reflexivity].
  by rewrite !Eff_bind_returned, Hk.
Qed.

Lemma Eff_bind_outcome {E A B : Type} (m : Eff E A) (k : A -> Eff E B) :
  (m ≫= k).1
  = match m.1 with
    | Returned a => (k a).1
    | Thrown e => Thrown e
    end.
Proof.
  destruct m as [[a|e] events]; [|reflexivity].
  by rewrite Eff_bind_returned.
Qed.

Lemma forEachM_app {E A S : Type} (l1 l2 : list A) (f : A -> S -> Eff E S) (acc : S) :
  forEachM (l1 ++ l2) f acc = forEachM l1 f acc ≫= forEachM l2 f.
Proof.
  revert acc. induction l1 as [|a l1 IH]; intros acc; simpl.
  - unfold mret, Eff_ret, mbind, Eff_bind. by destruct (forEachM l2 f acc).
  - rewrite Eff_bind_assoc. apply Eff_bind_ext. intros acc'. apply IH.
Qed.

(** ** [expandInputFiles] *)

Section ExpandInputFiles.
Context {Program : Type} `{Platform} `{Utils}.
Implicit Types (this : @Application Program) (node : FsNode).

Lemma existsSync_true (p : string) node : fs_at p = Some node -> existsSync p = true.
Proof. intros Hp. unfold existsSync. rewrite Hp. by apply bool_decide_eq_true_2. Qed.

Lemma existsSync_false (p : string) : fs_at p = None -> existsSync p = false.
Proof.
  intros Hp. unfold existsSync. rewrite Hp.
  apply bool_decide_eq_false_2. by intros [? ?].
Qed.

Lemma expand_entry_missing this (e : string) (files : list string) :
  fs_at (Path_resolve e) = None ->
  expand_entry this e files = (Returned files, [missing_warning e]).
Proof. intros He. unfold expand_entry. by rewrite He. Qed.

Lemma expand_entry_existing this (e : string) node (files : list string) :
  fs_at (Path_resolve e) = Some node ->
  expand_entry this e files
  = (add (createMinimatch (exclude this)) (supportedFileRegex this) node
       (Path_resolve e) true files, []).
Proof. intros He. unfold expand_entry. by rewrite He. Qed.

(** When the loop over the entry points returns, what it has logged is
    one warning for each entry point that does not exist, in their order. *)
Lemma forEachM_expand_entry_warnings this (l : list string) (acc files : list string)
  (events : list (@Event Program)) :
  forEachM l (expand_entry this) acc = (Returned files, events) ->
  events
  = map missing_warning (List.filter (fun e => negb (existsSync (Path_resolve e))) l).
Proof.
  revert acc events. induction l as [|e l IH]; intros acc events; simpl.
  - unfold mret, Eff_ret. by intros [= _ <-].
  - destruct (fs_at (Path_resolve e)) as [node|] eqn:He.
    + rewrite (existsSync_true _ _ He). cbn [negb].
      rewrite (expand_entry_existing _ _ _ _ He).
      destruct (add _ _ node _ true acc) as [acc'|err]; [|done].
      rewrite Eff_bind_returned. cbn [app]. intros Hrun.
      apply (IH acc'). rewrite <- Hrun. by destruct (forEachM l _ acc').
    + rewrite (existsSync_false _ He). cbn [negb map].
      rewrite (expand_entry_missing _ _ _ He), Eff_bind_returned.
      destruct (forEachM l (expand_entry this) acc) as [o events'] eqn:Hrest.
      cbn [fst snd app]. intros [= -> <-]. f_equal.
      by apply (IH acc).
Qed.

(** C4, as the code has it.  An entry point that does not exist makes its
    turn of the loop return normally with the file list as it was and
    exactly one warning logged; the loop reaches that turn when the entry
    points before it raised nothing, and goes on with the entry points
    after it; the outcome of [expandInputFiles], the files it returns or
    the error it raises, is the one it has without that entry point, so a
    missing entry point is never the reason of an error; and when
    [expandInputFiles] returns, its log is one warning for each missing
    entry point. *)
Theorem expandInputFiles_missing_entry_point this (pre post : list string) (e : string) :
  fs_at (Path_resolve e) = None ->
  (forall files, expand_entry this e files = (Returned files, [missing_warning e]))
  /\ expandInputFiles this (pre ++ e :: post)
     = (files ← forEachM pre (expand_entry this) [];
        emit (missing_warning e);;
        forEachM post (expand_entry this) files)
  /\ (expandInputFiles this (pre ++ e :: post)).1 = (expandInputFiles this (pre ++ post)).1
  /\ (forall files events,
        expandInputFiles this (pre ++ e :: post) = (Returned files, events) ->
        events
        = map missing_warning
            (List.filter (fun e' => negb (existsSync (Path_resolve e'))) (pre ++ e :: post))).
Proof.
  intros He.
  assert (Hstep : forall files,
             expand_entry this e files = (Returned files, [missing_warning e]))
    by (intros; by apply expand_entry_missing).
  assert (Hrun : expandInputFiles this (pre ++ e :: post)
     = (files ← forEachM pre (expand_entry this) [];
        emit (missing_warning e);;
        forEachM post (expand_entry this) files)).
  { unfold expandInputFiles. rewrite forEachM_app.
    apply Eff_bind_ext. intros files. simpl. by rewrite Hstep. }
  split; [done|]. split; [done|]. split.
  - rewrite Hrun. unfold expandInputFiles. rewrite forEachM_app.
    rewrite !Eff_bind_outcome.
    destruct (forEachM pre (expand_entry this) []).1; [|done].
    unfold emit. by rewrite Eff_bind_outcome.
  - intros files events. apply forEachM_expand_entry_warnings.
Qed.

Lemma readdir_forEach_ext {S : Type} (f g : string -> FsNode -> S -> Outcome S)
  (entries : list (string * FsNode)) (acc : S) :
  (forall next child acc, f next child acc = g next child acc) ->
  readdir_forEach f entries acc = readdir_forEach g entries acc.
Proof.
  intros Hfg. revert acc. induction entries as [|[next child] entries IH]; intros acc.
  - done.
  - simpl. rewrite Hfg. destruct (g next child acc); [apply IH|done].
Qed.

Lemma add_entry_point (excl : list Minimatch) (supported : string -> bool)
  node (file : string) (files : list string) :
  add excl supported node file true files = process excl supported node file files.
Proof. destruct node; reflexivity. Qed.

Lemma add_discovered (excl : list Minimatch) (supported : string -> bool)
  node (file : string) (files : list string) :
  add excl supported node file false files
  = if isExcluded excl (normalizePath (slashed node file)) then Returned files
    else process excl supported node file files.
Proof.
  destruct node; simpl; unfold slashed; simpl;
    try (by destruct (isExcluded excl _)).
Qed.


End ExpandInputFiles.

(** ** [convert] *)

Section Convert.
Context {Program : Type} `{TypeScript Program} `{Platform} `{Utils}.
Implicit Types (this : @Application Program).

Lemma push_reference_programs_map
  (refs : option (list (option ResolvedProjectReference))) (programs : list Program) :
  push_reference_programs refs programs
  = programs ++ map reference_program (omap (fun ref => ref) (default [] refs)).
Proof.
  unfold push_reference_programs.
  generalize (default [] refs). intros l. revert programs.
  induction l as [|[ref|] l IH]; intros programs; simpl.
  - by rewrite app_nil_r.
  - rewrite IH. by rewrite <- app_assoc.
  - apply IH.
Qed.

Lemma create_programs_run this :
  create_programs this
  = (Returned (programs_of this),
     if Nat.eqb (length (getRootFileNames (primary_program this))) 0
     then [Log Verbose
             "tsconfig appears to be a solution style tsconfig - creating programs for references"
             []]
     else []).
Proof.
  unfold create_programs, programs_of, resolved_references.
  destruct (Nat.eqb _ 0); [|reflexivity].
  by rewrite push_reference_programs_map.
Qed.

Lemma existsb_filter_length {A : Type} (g : A -> bool) (l : list A) :
  existsb g l = negb (Nat.eqb (length (List.filter g l)) 0).
Proof.
  induction l as [|a l IH]; [done|].
  simpl. destruct (g a); [done|]. exact IH.
Qed.

Lemma blocking_diagnostics_errors this :
  blocking_diagnostics this
  = negb (Nat.eqb (length (flatMap (programs_of this) emitFunc)) 0).
Proof.
  unfold blocking_diagnostics, flatMap.
  induction (programs_of this) as [|p ps IH]; [done|].
  cbn [existsb flat_map]. rewrite IH, length_app, existsb_filter_length.
  unfold emitFunc.
  destruct (length (List.filter _ (getPreEmitDiagnostics p))); done.
Qed.

(** The run of [convert], spelled out. *)
Lemma convert_run this :
  convert this
  = if blocking_diagnostics this then
      (Returned None,
       convert_log this ++ [LogDiagnostics (flatMap (programs_of this) emitFunc)])
    else
      match expandInputFiles this (entryPoints this) with
      | (Returned inputFiles, events) =>
          (Returned (converter this inputFiles (programs_of this)),
           convert_log this ++ events
             ++ [ConverterConvert inputFiles (programs_of this)])
      | (Thrown e, events) => (Thrown e, convert_log this ++ events)
      end.
Proof.
  rewrite blocking_diagnostics_errors.
  unfold convert, convert_log, convert_log_after_version, supported_version.
  rewrite create_programs_run.
  unfold when, emit, mret, Eff_ret, mbind, Eff_bind.
  destruct (existsb _ supportedVersionMajorMinor);
    destruct (Nat.eqb (length (getCompilerOptions (options this))) 0);
    destruct (Nat.eqb (length (getRootFileNames (primary_program this))) 0);
    destruct (negb (Nat.eqb (length (flatMap (programs_of this) emitFunc)) 0));
    cbn [negb app]; try reflexivity;
    destruct (expandInputFiles this (entryPoints this)) as [[files|e] events];
    cbn [app]; rewrite ?app_nil_r; reflexivity.
Qed.

Lemma expand_entry_events this (l : list string) (acc : list string) :
  Forall (fun ev => exists e, ev = missing_warning (Program := Program) e)
    (forEachM l (expand_entry this) acc).2.
Proof.
  revert acc. induction l as [|e l IH]; intros acc; simpl; [constructor|].
  destruct (fs_at (Path_resolve e)) as [node|] eqn:He.
  - rewrite (expand_entry_existing _ _ _ _ He).
    destruct (add _ _ node _ true acc) as [acc'|err]; [|constructor].
    rewrite Eff_bind_returned. apply IH.
  - rewrite (expand_entry_missing _ _ _ He), Eff_bind_returned.
    constructor; [by exists e|apply IH].
Qed.

Lemma converter_calls_app (l1 l2 : list (@Event Program)) :
  converter_calls (l1 ++ l2) = converter_calls l1 ++ converter_calls l2.
Proof. unfold converter_calls. apply omap_app. Qed.

Lemma converter_calls_expand this (l : list string) (acc : list string) :
  converter_calls (forEachM l (expand_entry this) acc).2 = [].
Proof.
  pose proof (expand_entry_events this l acc) as Hall.
  induction Hall as [|ev evs [e ->] _ IH]; [done|]. exact IH.
Qed.

Lemma converter_calls_convert_log this : converter_calls (convert_log this) = [].
Proof.
  unfold convert_log, convert_log_after_version.
  destruct supported_version;
    destruct (Nat.eqb (length (getCompilerOptions (options this))) 0);
    destruct (Nat.eqb (length (getRootFileNames (primary_program this))) 0);
    reflexivity.
Qed.

Lemma convert_converter_calls this :
  converter_calls (convert this).2
  = if blocking_diagnostics this then []
    else
      match expandInputFiles this (entryPoints this) with
      | (Returned inputFiles, _) => [(inputFiles, programs_of this)]
      | (Thrown _, _) => []
      end.
Proof.
  rewrite convert_run. destruct (blocking_diagnostics this).
  - cbn [snd]. by rewrite converter_calls_app, converter_calls_convert_log.
  - pose proof (converter_calls_expand this (entryPoints this) []) as Hcalls.
    fold (expandInputFiles this (entryPoints this)) in Hcalls.
    destruct (expandInputFiles this (entryPoints this)) as [[files|e] events];
      cbn [snd] in *.
    + by rewrite !converter_calls_app, converter_calls_convert_log, Hcalls.
    + by rewrite !converter_calls_app, converter_calls_convert_log, Hcalls.
Qed.

(** C1.  When some program of the request has a pre-emit diagnostic whose
    code is not on the ignore list, [convert] returns [undefined] and has
    not invoked the converter.  When every diagnostic is on the ignore
    list, the diagnostics do not end the conversion: [convert] expands the
    entry points, invokes the converter once on them and on the programs,
    and returns what the converter returns (or raises what the expansion
    raised). *)
Theorem convert_aborts_on_blocking_diagnostics_only this :
  if blocking_diagnostics this then
    (convert this).1 = Returned None
    /\ converter_calls (convert this).2 = []
  else
    match expandInputFiles this (entryPoints this) with
    | (Returned inputFiles, _) =>
        (convert this).1 = Returned (converter this inputFiles (programs_of this))
        /\ converter_calls (convert this).2 = [(inputFiles, programs_of this)]
    | (Thrown e, _) => (convert this).1 = Thrown e
    end.
Proof.
  rewrite convert_converter_calls, convert_run.
  destruct (blocking_diagnostics this); [done|].
  by destruct (expandInputFiles this (entryPoints this)) as [[files|e] events].
Qed.

(** C3.  [convert] creates the primary program and, when that program has
    no root file, one more program for each project reference that
    resolved, in their order; when the primary program has a root file,
    the primary program alone.  These are the programs [convert] works on:
    it takes the diagnostics of each of them, reports their number, and,
    when no diagnostic blocks and the entry points expand, invokes the
    converter once, with exactly these programs, and returns what the
    converter gives. *)
Theorem convert_programs_per_reference this :
  (create_programs this).1 = Returned (programs_of this)
  /\ length (programs_of this)
     = (if Nat.eqb (length (getRootFileNames (primary_program this))) 0
        then S (length (resolved_references (primary_program this)))
        else 1%nat)
  /\ programs_of this
     = primary_program this
       :: (if Nat.eqb (length (getRootFileNames (primary_program this))) 0
           then map reference_program (resolved_references (primary_program this))
           else [])
  /\ Forall (fun call => call.2 = programs_of this) (converter_calls (convert this).2)
  /\ convert this
     = (if blocking_diagnostics this then
          (Returned None,
           convert_log this ++ [LogDiagnostics (flatMap (programs_of this) emitFunc)])
        else
          match expandInputFiles this (entryPoints this) with
          | (Returned inputFiles, events) =>
              (Returned (converter this inputFiles (programs_of this)),
               convert_log this ++ events
               ++ [ConverterConvert inputFiles (programs_of this)])
          | (Thrown e, events) => (Thrown e, convert_log this ++ events)
          end)
  /\ converter_calls (convert this).2
     = (if blocking_diagnostics this then []
        else
          match expandInputFiles this (entryPoints this) with
          | (Returned inputFiles, _) => [(inputFiles, programs_of this)]
          | (Thrown _, _) => []
          end)
  /\ In (Log Verbose
           ("Converting with " +:+ pretty (length (programs_of this)) +:+ " programs")
           [])
        (convert this).2.
Proof.
  split; [by rewrite create_programs_run|]. split; [|split; [done|]].
  - unfold programs_of.
    destruct (Nat.eqb _ 0); simpl; [by rewrite length_map|done].
  - split; [|split; [apply convert_run|split; [apply convert_converter_calls|]]].
    + rewrite convert_converter_calls.
      destruct (blocking_diagnostics this); [constructor|].
      destruct (expandInputFiles this (entryPoints this)) as [[files|e] events];
        repeat constructor.
    + assert (Hlog : In (Log Verbose
                 ("Converting with " +:+ pretty (length (programs_of this)) +:+ " programs")
                 []) (convert_log this)).
      { unfold convert_log, convert_log_after_version.
        right. apply in_or_app. right. apply in_or_app. right.
        apply in_or_app. right. by left. }
      rewrite convert_run.
      destruct (blocking_diagnostics this); [apply in_or_app; by left|].
      destruct (expandInputFiles this (entryPoints this)) as [[files|e] events];
        apply in_or_app; by left.
Qed.

End Convert.

(** C9.  The outcome of [convert] and everything it does but for one
    warning are the same whatever [versionMajorMinor] the compiler reports.
    The outcome is that of the conversion: [undefined] when a diagnostic
    blocks, else what the converter gives for the expanded entry points
    (or the exception their expansion raised).  The log is the first
    message, then the warning when the version is not among the supported
    ones, and none when it is, then what the conversion logs and does with
    any version. *)
Theorem convert_unsupported_version_warns_and_proceeds {Program : Type}
  (T : TypeScript Program) `{Platform} `{Utils} (this : @Application Program) :
  forall v : string,
    @convert Program (with_versionMajorMinor T v) _ _ this
    = ((if @blocking_diagnostics _ T this then Returned None
        else
          match expandInputFiles this (entryPoints this) with
          | (Returned inputFiles, _) =>
              Returned (converter this inputFiles (@programs_of _ T this))
          | (Thrown e, _) => Thrown e
          end),
       Log Verbose "Using TypeScript %s from %s" [@version _ T; getTypeScriptPath]
       :: (if existsb (fun s => String.eqb s v) supportedVersionMajorMinor
           then []
           else [Log Warn unsupported_version []])
       ++ @convert_log_after_version _ T this
       ++ (if @blocking_diagnostics _ T this then
             [LogDiagnostics (flatMap (@programs_of _ T this) (@emitFunc _ T))]
           else
             match expandInputFiles this (entryPoints this) with
             | (Returned inputFiles, events) =>
                 events ++ [ConverterConvert inputFiles (@programs_of _ T this)]
             | (Thrown _, events) => events
             end)).
Proof.
  intros v. rewrite convert_run.
  change (@blocking_diagnostics _ (with_versionMajorMinor T v) this)
    with (@blocking_diagnostics _ T this).
  unfold convert_log, supported_version.
  cbn [versionMajorMinor with_versionMajorMinor].
  destruct (@blocking_diagnostics _ T this).
  - f_equal. cbn [app]. f_equal. by rewrite <- app_assoc.
  - destruct (expandInputFiles this (entryPoints this)) as [[files|e] events].
    + f_equal. cbn [app]. f_equal. by rewrite <- app_assoc.
    + f_equal. cbn [app]. f_equal. by rewrite <- app_assoc.
Qed.

(** ** [generateJson] *)

(** C7.  [generateJson] makes one export pass: the [begin] hook fires
    once, then the [end] hook fires once, both with the same record, which
    holds the directory and the file name of the resolved target path; the
    export is written after them.  The exported value is that of the
    project whatever data the hooks are given. *)
Theorem generateJson_hooks_fire_once_with_same_metadata {Program : Type}
  `{Platform} `{TypeExport} (this : @Application Program)
  (project : ProjectReflection) (out : string) :
  let resolved := Path_resolve out in
  let eventData :=
    [("outputDirectory", JStr (Path_dirname resolved));
     ("outputFile", JStr (Path_basename resolved))] in
  let json := JSON_stringify (ProjectReflection_toObject project) tab in
  generateJson this project out
  = match writeFile_error resolved json with
    | None =>
        (Returned tt,
         [SerializerBegin project (Some eventData);
          SerializerEnd project (Some eventData);
          WriteFile resolved json;
          Log Success "JSON written to %s" [resolved]])
    | Some e =>
        (Thrown e,
         [SerializerBegin project (Some eventData);
          SerializerEnd project (Some eventData)])
    end
  /\ (forall data : SerializeEventData,
        (projectToObject (Program := Program) project data).1
        = Returned (ProjectReflection_toObject project)).
Proof.
  intros resolved eventData json. split; [|reflexivity].
  unfold generateJson, projectToObject, writeFile.
  fold resolved. fold eventData.
  unfold emit, throw, mret, Eff_ret, mbind, Eff_bind. cbn [app].
  fold json. by destruct (writeFile_error resolved json).
Qed.

(** ** The examples, run *)

(** The entry point [src/generated/api.ts] matches the exclude pattern and
    is listed; the directory [generated] found in [src] matches it and is
    dropped with what it holds. *)
Example expandInputFiles_example :
  @isExcluded example_Utils (@createMinimatch example_Utils (exclude example_app))
    "/work/src/generated/api.ts" = true
  /\ @expandInputFiles _ example_Platform example_Utils example_app
       (entryPoints example_app)
     = (Returned ["/work/src/index.ts"; "/work/src/util.tsx";
                  "/work/src/generated/api.ts"],
        [missing_warning "missing.ts"]).
Proof. split; vm_compute; reflexivity. Qed.

Example convert_solution_example :
  map (fun call => (call.1, length call.2))
    (converter_calls
       (@convert _ example_TypeScript example_Platform example_Utils example_solution).2)
  = [(["/work/src/index.ts"], 3%nat)].
Proof. vm_compute. reflexivity. Qed.

Example convert_broken_example :
  (@convert _ example_TypeScript example_Platform example_Utils example_broken).1
  = Returned None.
Proof. vm_compute. reflexivity. Qed.

(** A directory that cannot be listed makes [readdirSync] throw, which
    ends the loop over the entry points. *)
Example expandInputFiles_unreadable_example :
  (@expandInputFiles ExampleProgram example_Platform example_Utils example_app
     ["/work/secret"; "missing.ts"])
  = (Thrown "readdirSync", []).
Proof. vm_compute. reflexivity. Qed.

(** C4 as stated fails: an entry point that does not exist is not warned
    about when an entry point before it is a directory that cannot be
    listed; [readdirSync] throws, nothing catches it, and the loop ends
    before it looks at the missing entry point. *)
Lemma expandInputFiles_no_warning_after_throw :
  @fs_at example_Platform (@Path_resolve example_Platform "missing.ts") = None
  /\ @expandInputFiles ExampleProgram example_Platform example_Utils example_app
       ["/work/secret"; "missing.ts"]
     = (Thrown "readdirSync", [])
  /\ ~ In (@missing_warning ExampleProgram "missing.ts")
         (@expandInputFiles ExampleProgram example_Platform example_Utils example_app
            ["/work/secret"; "missing.ts"]).2
  /\ (@expandInputFiles ExampleProgram example_Platform example_Utils example_app
        ["missing.ts"; "/work/secret"]).2
     = [@missing_warning ExampleProgram "missing.ts"].
Proof.
  split; [reflexivity|]. split; [vm_compute; reflexivity|].
  split; [|vm_compute; reflexivity].
  vm_compute. intros [].
Qed.

(** The codec of the literal type export is invertible. *)
Lemma code_role_code (role : TraverseProperty) :
  code_role (role_code role) = Some role.
Proof. by destruct role. Qed.

Lemma json_shape_shape_json (s : Shape) : json_shape (shape_json s) = Some s.
Proof.
  revert s. fix IH 1. intros [i n k parts].
  cbn [shape_json json_shape].
  assert (Hparts :
    mapM (fun part =>
            match part with
            | JArr [JNum code; below] =>
                role ← code_role code;
                below ← json_shape below;
                Some (role, below)
            | _ => None
            end)
      (map (fun part =>
              match part with
              | (role, below) => JArr [JNum (role_code role); shape_json below]
              end)
         parts)
    = Some parts).
  { induction parts as [|[role below] parts IHparts]; [done|].
    cbn [map mapM]. rewrite code_role_code. cbn [mbind option_bind].
    rewrite (IH below). cbn [mbind option_bind].
    rewrite IHparts. done. }
  rewrite Hparts. done.
Qed.

Lemma literal_reload_type_export (t : TypeDesc) :
  literal_reload_type (@Type_toObject literal_TypeExport t)
  = Some (type_literal_shape t).
Proof.
  destruct t as [d|n|n target]; [|done..].
  cbn [Type_toObject literal_TypeExport literal_reload_type].
  change (obj_get "declaration"
            [("type", JStr "reflection"); ("declaration", shape_json (shape_of d))])
    with (Some (shape_json (shape_of d))).
  cbn beta iota. by rewrite json_shape_shape_json.
Qed.

(** The reload of the export of the example tree, written out. *)
Example reload_example_tree :
  reload literal_reload_type (@ProjectReflection_toObject literal_TypeExport example_tree)
  = Some
      (ShapeNode 0 "typedoc" 1
         [(Children,
           ShapeNode 20 "Renderer" 128
             [(TypeParameter, ShapeNode 21 "T" 131072 []);
              (Children,
               ShapeNode 10 "render" 64
                 [(Signatures, ShapeNode 11 "render" 4096 []);
                  (Signatures, ShapeNode 12 "render" 4096 []);
                  (GetSignature, ShapeNode 13 "__get" 524288 [])]);
              (Children,
               ShapeNode 30 "options" 1024
                 [(TypeLiteral,
                   ShapeNode 31 "__type" 65536
                     [(Signatures, ShapeNode 33 "__call" 4096 []);
                      (IndexSignature, ShapeNode 34 "__index" 8192 []);
                      (SetSignature, ShapeNode 35 "__set" 1048576 []);
                      (Children, ShapeNode 32 "theme" 1024 [])])])])]).
Proof. vm_compute. reflexivity. Qed.

(** ** Witnesses *)



Lemma example_store_represents :
  represents example_store overloaded_object overloaded_declaration.
Proof.
  repeat split.
  intros a [= <-]. exists [sig_call_1; sig_call_2]. reflexivity.
Defined.

Lemma getAllSignatures_in_order_no_mutation_witness :
  represents example_store overloaded_object overloaded_declaration
  /\ (ArrayStore.getAllSignatures overloaded_object example_store).2
       !! (ArrayStore.getAllSignatures overloaded_object example_store).1
     = Some [sig_call_1; sig_call_2; sig_get].
Proof.
  split; [exact example_store_represents|].
  exact (proj1 (proj2 (getAllSignatures_in_order_no_mutation
                         example_store overloaded_object overloaded_declaration
                         example_store_represents))).
Defined.

Lemma expandInputFiles_missing_entry_point_witness :
  @fs_at example_Platform (@Path_resolve example_Platform "missing.ts") = None
  /\ (@expandInputFiles ExampleProgram example_Platform example_Utils example_app
        (["src"] ++ "missing.ts" :: ["src/generated/api.ts"])).1
     = (@expandInputFiles ExampleProgram example_Platform example_Utils example_app
          (["src"] ++ ["src/generated/api.ts"])).1.
Proof.
  split; [reflexivity|].
  exact (proj1 (proj2 (proj2
           (@expandInputFiles_missing_entry_point ExampleProgram example_Platform
              example_Utils example_app ["src"] ["src/generated/api.ts"]
              "missing.ts" eq_refl)))).
Defined.

(** * Further properties of the code *)

(** ** [getAllSignatures], [hasGetterOrSetter] and [traverse] *)

(** The run of [getAllSignatures] on a declaration held in a store. *)
Lemma getAllSignatures_run
  (st : ArrayStore.store) (this : ArrayStore.this_t) (d : DeclarationReflection) :
  represents st this d ->
  st !! (ArrayStore.getAllSignatures this st).1 = None
  /\ (ArrayStore.getAllSignatures this st).2 !! (ArrayStore.getAllSignatures this st).1
     = Some (signatures_in_order d)
  /\ (forall l, is_Some (st !! l) ->
        (ArrayStore.getAllSignatures this st).2 !! l = st !! l).
Proof.
  intros (Hsig & Halloc & Hi & Hg & Hs).
  unfold ArrayStore.getAllSignatures, signatures_in_order.
  rewrite Hsig, Hi, Hg, Hs.
  destruct this as [sigs i g s]; simpl in *.
  set (r0 := fresh (dom st)).
  assert (F0 : st !! r0 = None) by apply fresh_unallocated.
  destruct sigs as [a|]; cbn [fmap option_fmap option_map default from_option].
  - destruct (Halloc a eq_refl) as [items Ha].
    assert (a <> r0) by (intros ->; congruence).
    unfold ArrayStore.array_concat, ArrayStore.array_literal.
    set (st1 := <[r0 := []]> st).
    set (r1 := fresh (dom st1)).
    assert (F1 : st1 !! r1 = None) by apply fresh_unallocated.
    assert (r1 <> r0).
    { intros E. rewrite E in F1. unfold st1 in F1.
      by rewrite lookup_insert_eq in F1. }
    assert (F1' : st !! r1 = None).
    { unfold st1 in F1. by rewrite lookup_insert_ne in F1. }
    assert (C0 : ArrayStore.contents st1 r0 = []).
    { unfold st1. apply contents_insert_eq. }
    assert (C1 : ArrayStore.contents st1 a = ArrayStore.contents st a).
    { unfold st1. by apply contents_insert_ne. }
    rewrite C0, C1. simpl app.
    pose proof (three_pushes r1 i g s (ArrayStore.contents st a)
                  (<[r1 := ArrayStore.contents st a]> st1)
                  (lookup_insert_eq _ _ _)) as [E O].
    cbv zeta in E, O. cbn [fst snd].
    split; [done|]. split; [exact E|].
    intros l [x Hl]. etrans; [apply O; intros ->; congruence|].
    rewrite lookup_insert_ne by (intros <-; congruence).
    unfold st1. rewrite lookup_insert_ne by (intros <-; congruence). done.
  - unfold ArrayStore.array_literal. fold r0.
    pose proof (three_pushes r0 i g s [] (<[r0 := []]> st)
                  (lookup_insert_eq _ _ _)) as [E O].
    cbv zeta in E, O. cbn [fst snd].
    split; [done|]. split; [exact E|].
    intros l [x Hl]. etrans; [apply O; intros ->; congruence|].
    rewrite lookup_insert_ne by (intros <-; congruence). done.
Qed.

(** A store that changed none of the arrays allocated in [st] holds the
    same declaration. *)
Lemma represents_preserved (st st' : ArrayStore.store) (this : ArrayStore.this_t)
  (d : DeclarationReflection) :
  represents st this d ->
  (forall l, is_Some (st !! l) -> st' !! l = st !! l) ->
  represents st' this d.
Proof.
  intros (Hsig & Halloc & Hi & Hg & Hs) Hkeep.
  repeat split; try done.
  - rewrite Hsig. destruct (ArrayStore.signatures this) as [a|] eqn:Ea; [|done].
    simpl. f_equal. unfold ArrayStore.contents.
    rewrite Hkeep; [done|]. by apply Halloc.
  - intros a Ha. rewrite Hkeep; by apply Halloc.
Qed.

(** X1.  The array [getAllSignatures] returns is empty exactly when the
    declaration has no call signature (the list is absent or empty) and no
    index, get or set signature; a declaration for which
    [hasGetterOrSetter] holds never gets an empty array. *)
Theorem getAllSignatures_empty_iff
  (st : ArrayStore.store) (this : ArrayStore.this_t) (d : DeclarationReflection) :
  represents st this d ->
  (ArrayStore.contents (ArrayStore.getAllSignatures this st).2
     (ArrayStore.getAllSignatures this st).1 = []
   <-> default [] (signatures d) = [] /\ indexSignature d = None
       /\ getSignature d = None /\ setSignature d = None)
  /\ (hasGetterOrSetter d = true ->
      ArrayStore.contents (ArrayStore.getAllSignatures this st).2
        (ArrayStore.getAllSignatures this st).1 <> []).
Proof.
  intros Hrep. destruct (getAllSignatures_run st this d Hrep) as (_ & Hres & _).
  unfold ArrayStore.contents. rewrite Hres. cbn [default from_option].
  unfold signatures_in_order, hasGetterOrSetter.
  destruct (default [] (signatures d)) as [|s0 l], (indexSignature d),
    (getSignature d), (setSignature d); simpl; split; try done;
    try (split; [done|intros (? & ? & ? & ?); done]).
Qed.

(** X2.  Each call of [getAllSignatures] returns an array of its own: when
    the caller pushes onto the array it got, a second call still returns
    the signatures of the declaration, in another array, and leaves the
    first array as the caller made it. *)
Theorem getAllSignatures_result_is_private
  (st : ArrayStore.store) (this : ArrayStore.this_t) (d : DeclarationReflection)
  (x : SignatureReflection) :
  represents st this d ->
  let r1 := (ArrayStore.getAllSignatures this st).1 in
  let st1 := ArrayStore.array_push r1 x (ArrayStore.getAllSignatures this st).2 in
  let r2 := (ArrayStore.getAllSignatures this st1).1 in
  let st2 := (ArrayStore.getAllSignatures this st1).2 in
  r2 <> r1
  /\ st2 !! r2 = Some (signatures_in_order d)
  /\ st2 !! r1 = Some (signatures_in_order d ++ [x])
  /\ represents st2 this d.
Proof.
  intros Hrep r1 st1 r2 st2.
  destruct (getAllSignatures_run st this d Hrep) as (Hfresh & Hres & Hkeep).
  fold r1 in Hfresh, Hres.
  assert (Hpush : st1 !! r1 = Some (signatures_in_order d ++ [x])).
  { unfold st1, ArrayStore.array_push, ArrayStore.contents.
    by rewrite lookup_insert_eq, Hres. }
  assert (Hkeep1 : forall l, is_Some (st !! l) -> st1 !! l = st !! l).
  { intros l Hl. unfold st1, ArrayStore.array_push.
    rewrite lookup_insert_ne by (intros <-; destruct Hl; congruence).
    by apply Hkeep. }
  assert (Hrep1 : represents st1 this d) by (by eapply represents_preserved).
  destruct (getAllSignatures_run st1 this d Hrep1) as (Hfresh2 & Hres2 & Hkeep2).
  fold r2 in Hfresh2, Hres2. fold st2 in Hres2.
  split; [intros E; rewrite E in Hfresh2; congruence|].
  split; [done|]. split.
  - unfold st2. rewrite Hkeep2 by eauto. done.
  - eapply represents_preserved; [exact Hrep1|]. intros l Hl. by apply Hkeep2.
Qed.

(** X3.  The signatures [traverse] shows its visitor, in the order of the
    visits, are the signatures [getAllSignatures] returns, in the order of
    the array. *)
Theorem traverse_visits_getAllSignatures
  (st : ArrayStore.store) (this : ArrayStore.this_t) (d : DeclarationReflection) :
  represents st this d ->
  Some (omap visited_signature (traverse d record_visit []))
  = (ArrayStore.getAllSignatures this st).2 !! (ArrayStore.getAllSignatures this st).1.
Proof.
  intros Hrep. destruct (getAllSignatures_run st this d Hrep) as (_ & -> & _).
  f_equal.
  rewrite traverse_unfold, container_traverse_unfold, !forEach_record.
  unfold structural_children, ordinary_children, signatures_in_order.
  rewrite !omap_app.
  assert (Hsig : forall l : list SignatureReflection,
             forall p, omap visited_signature (map (fun s => (OfSignature s, p)) l) = l).
  { intros l p. induction l as [|s l IH]; [done|]. simpl. by f_equal. }
  rewrite !Hsig.
  assert (Htp : forall l : list TypeParameterReflection,
             omap visited_signature (map (fun p => (OfTypeParameter p, TypeParameter)) l) = []).
  { induction l as [|s l IH]; [done|]. exact IH. }
  assert (Hch : forall l : list DeclarationReflection,
             omap visited_signature (map (fun c => (OfDeclaration c, Children)) l) = []).
  { induction l as [|s l IH]; [done|]. exact IH. }
  rewrite Htp, Hch.
  destruct (type d) as [[decl|n|n t]|]; simpl; by rewrite app_nil_r.
Qed.

(** ** [toObject] *)

Lemma obj_get_None_keys {V : Type} (k : string) (o : list (string * V)) :
  obj_get k o = None <-> k ∉ map fst o.
Proof.
  induction o as [|[k' v] o IH]; simpl.
  - split; [intros _ Hin; by apply elem_of_nil in Hin|done].
  - destruct (String.eqb k k') eqn:E.
    + apply String.eqb_eq in E. subst k'. split; [done|].
      intros Hk. exfalso. apply Hk. apply list_elem_of_here.
    + apply String.eqb_neq in E. rewrite IH. split.
      * intros Hk Hin. apply elem_of_cons in Hin as [?|?]; [done|by apply Hk].
      * intros Hk Hin. apply Hk. by apply list_elem_of_further.
Qed.

Lemma obj_set_absent {V : Type} (k : string) (v : V) (o : list (string * V)) :
  obj_get k o = None -> obj_set k v o = o ++ [(k, v)].
Proof.
  induction o as [|[k' v'] o IH]; simpl; [done|].
  destruct (String.eqb k k'); [done|]. intros Hk. by rewrite IH.
Qed.

Lemma keys_obj_set {V : Type} (k : string) (v : V) (o : list (string * V)) :
  map fst (obj_set k v o)
  = if has_key k o then map fst o else map fst o ++ [k].
Proof.
  unfold has_key. induction o as [|[k' v'] o IH]; simpl; [done|].
  destruct (String.eqb k k') eqn:E; simpl.
  - apply String.eqb_eq in E. by subst.
  - rewrite IH. by destruct (obj_get k o).
Qed.

Lemma has_key_obj_set {V : Type} (k k' : string) (v : V) (o : list (string * V)) :
  has_key k' (obj_set k v o) = String.eqb k k' || has_key k' o.
Proof.
  unfold has_key. destruct (String.eqb k k') eqn:E.
  - apply String.eqb_eq in E. subst. by rewrite obj_get_set_eq.
  - apply String.eqb_neq in E. by rewrite obj_get_set_ne.
Qed.

(** Guarded assignments to distinct keys leave the keys the record has in
    their places and add the keys that are assigned and new, in the order
    of the assignments. *)
Lemma assign_all_keys (fields : list (string * option JsonValue))
  (result : list (string * JsonValue)) :
  NoDup (map fst fields) ->
  map fst (assign_all fields result)
  = map fst result
    ++ map fst (List.filter (fun kv => present kv.2 && negb (has_key kv.1 result))
                  fields).
Proof.
  revert result. induction fields as [|[k [v|]] fields IH]; intros result Hnd.
  - simpl. by rewrite app_nil_r.
  - apply NoDup_cons in Hnd as [Hk Hnd].
    cbn [assign_all fold_left fst snd List.filter present map andb].
    change (fold_left _ fields ?r) with (assign_all fields r).
    rewrite IH by done. rewrite keys_obj_set.
    assert (Hsame : List.filter
               (fun kv : string * option JsonValue =>
                  present kv.2 && negb (has_key kv.1 (obj_set k v result))) fields
             = List.filter
                 (fun kv : string * option JsonValue =>
                    present kv.2 && negb (has_key kv.1 result)) fields).
    { apply filter_ext_in. intros [k' v'] Hin. cbn [fst snd].
      rewrite has_key_obj_set.
      destruct (String.eqb k k') eqn:E; [|done].
      apply String.eqb_eq in E. subst k'. exfalso. apply Hk.
      apply list_elem_of_In. apply (in_map fst) in Hin. exact Hin. }
    rewrite Hsame.
    destruct (has_key k result); cbn [negb]; [done|].
    cbn [map fst]. by rewrite <- app_assoc.
  - apply NoDup_cons in Hnd as [Hk Hnd].
    cbn [assign_all fold_left fst snd List.filter present andb].
    change (fold_left _ fields ?r) with (assign_all fields r).
    by apply IH.
Qed.

Lemma assign_if_as_match {A : Type} (x : option A) (k : string)
  (f : A -> JsonValue) (result : list (string * JsonValue)) :
  assign_if x k f result
  = match f <$> x with
    | Some v => obj_set k v result
    | None => result
    end.
Proof. by destruct x. Qed.

Lemma truthy_defaultValue_export (this : DeclarationReflection) :
  JStr <$> truthy_defaultValue this
  = (v ← defaultValue this; if truthy_string v then Some (JStr v) else None).
Proof.
  unfold truthy_defaultValue. destruct (defaultValue this) as [v|]; [|done].
  simpl. by destruct (truthy_string v).
Qed.

Lemma toObject_fields_assign_all `{TypeExport} (this : DeclarationReflection)
  (result : list (string * JsonValue)) :
  toObject_fields this result
  = assign_all (map (fun k => (k, optional_field this k)) optional_keys) result.
Proof.
  rewrite toObject_fields_assignments, !assign_if_as_match,
    truthy_defaultValue_export.
  reflexivity.
Qed.

Lemma filter_sublist {A : Type} (f : A -> bool) (l : list A) :
  List.filter f l `sublist_of` l.
Proof.
  induction l as [|a l IH]; simpl; [constructor|].
  destruct (f a); by constructor.
Qed.

Lemma filter_field_keys {A : Type} (g : string -> option A) (q : string -> bool)
  (keys : list string) :
  map fst (List.filter (fun kv : string * option A => present kv.2 && q kv.1)
             (map (fun k => (k, g k)) keys))
  = List.filter (fun k => present (g k) && q k) keys.
Proof.
  induction keys as [|k keys IH]; [done|].
  simpl. destruct (present (g k) && q k); simpl; by rewrite IH.
Qed.

Lemma optional_keys_NoDup : NoDup optional_keys.
Proof. refine (bool_decide_unpack _ _); vm_compute; exact I. Qed.

Lemma toObject_fields_keys `{TypeExport} (this : DeclarationReflection)
  (result : list (string * JsonValue)) :
  map fst (toObject_fields this result)
  = map fst result
    ++ List.filter
         (fun k => present (optional_field this k) && negb (has_key k result))
         optional_keys.
Proof.
  rewrite toObject_fields_assign_all, assign_all_keys.
  - f_equal.
    apply (filter_field_keys (optional_field this)
             (fun k => negb (has_key k result))).
  - rewrite map_map. simpl. apply optional_keys_NoDup.
Qed.

(** X4.  [toObject] leaves the keys of the record of the super call in
    their places and puts after them the keys it adds, those of the nine
    optional fields that are set and that the record did not have, in the
    order [type], [defaultValue], [overwrites], [inheritedFrom],
    [extendedTypes], [extendedBy], [implementedTypes], [implementedBy],
    [implementationOf]; in the record of a declaration no key comes
    twice. *)
Theorem toObject_keys_in_order `{TypeExport} (this : DeclarationReflection) :
  (forall result : list (string * JsonValue),
      map fst (toObject_fields this result)
      = map fst result
        ++ List.filter
             (fun k => present (optional_field this k) && negb (has_key k result))
             optional_keys)
  /\ NoDup (map fst (exported_record this)).
Proof.
  split; [apply toObject_fields_keys|].
  unfold exported_record. rewrite toObject_fields_keys.
  eapply sublist_NoDup
    with (l2 := ["id"; "name"; "kind"; "typeParameters"; "signatures";
                 "indexSignature"; "getSignature"; "setSignature"; "children"]
                ++ optional_keys).
  - refine (bool_decide_unpack _ _); vm_compute; exact I.
  - apply sublist_app; [|apply filter_sublist].
    unfold ContainerReflection_toObject, declaration_groups.
    destruct (map TypeParameterReflection_toObject _),
      (map SignatureReflection_toObject (default [] _)),
      (map SignatureReflection_toObject (option_list (indexSignature this))),
      (map SignatureReflection_toObject (option_list (getSignature this))),
      (map SignatureReflection_toObject (option_list (setSignature this))),
      (match children this with Some cs => map toObject cs | None => [] end);
      simpl; by repeat constructor.
Qed.

(** ** [expandInputFiles] and [add] *)

Lemma FsNode_entries_ind (P : FsNode -> Prop) :
  P FsFile -> P FsDirUnreadable -> P FsNoStat ->
  (forall entries, Forall (fun entry => P entry.2) entries -> P (FsDir entries)) ->
  forall node, P node.
Proof.
  intros Hfile Hunreadable Hnostat Hdir. fix IH 1. intros [|entries| |].
  - exact Hfile.
  - apply Hdir. induction entries as [|[next child] entries IHentries];
      constructor; [apply IH|exact IHentries].
  - exact Hunreadable.
  - exact Hnostat.
Qed.

Lemma prepend_nil {A : Type} (o : Outcome (list A)) : prepend [] o = o.
Proof. by destruct o. Qed.

Lemma prepend_prepend {A : Type} (l1 l2 : list A) (o : Outcome (list A)) :
  prepend l1 (prepend l2 o) = prepend (l1 ++ l2) o.
Proof. destruct o; simpl; [by rewrite app_assoc|done]. Qed.

Section AddProperties.
Context {Program : Type} `{Platform} `{Utils}.
Implicit Types (this : @Application Program) (node : FsNode).

Lemma readdir_forEach_prepend (f : string -> FsNode -> list string -> Outcome (list string))
  (entries : list (string * FsNode)) (acc : list string) :
  Forall (fun entry => forall acc, f entry.1 entry.2 acc = prepend acc (f entry.1 entry.2 []))
    entries ->
  readdir_forEach f entries acc = prepend acc (readdir_forEach f entries []).
Proof.
  intros Hall. revert acc.
  induction Hall as [|[next child] entries Hf _ IH]; intros acc.
  - simpl. by rewrite app_nil_r.
  - simpl in *. rewrite (Hf acc).
    destruct (f next child []) as [new|e]; simpl; [|done].
    rewrite (IH (acc ++ new)), (IH new). by rewrite prepend_prepend.
Qed.

Lemma add_prepend (excl : list Minimatch) (supported : string -> bool)
  node (file : string) (entryPoint : bool) (files : list string) :
  add excl supported node file entryPoint files
  = prepend files (add excl supported node file entryPoint []).
Proof.
  revert file entryPoint files.
  induction node as [| | |entries IH] using FsNode_entries_ind;
    intros file entryPoint files.
  - simpl. destruct (negb entryPoint && isExcluded excl (normalizePath file));
      simpl; [by rewrite app_nil_r|].
    destruct (supported file); simpl; by rewrite ?app_nil_r.
  - simpl. destruct (negb entryPoint && isExcluded excl _); simpl;
      [by rewrite app_nil_r|done].
  - simpl. by rewrite app_nil_r.
  - cbn [add statSync isDirectory].
    destruct (negb entryPoint && isExcluded excl _); simpl;
      [by rewrite app_nil_r|].
    apply readdir_forEach_prepend.
    eapply Forall_impl; [exact IH|]. intros [next child] Hchild acc. apply Hchild.
Qed.

Lemma expand_entry_prepend this (e : string) (files : list string) :
  expand_entry this e files
  = (prepend files (expand_entry this e []).1, (expand_entry this e []).2).
Proof.
  unfold expand_entry. destruct (fs_at (Path_resolve e)) as [node|].
  - unfold lift_outcome. simpl. apply (f_equal (fun o => (o, []))), add_prepend.
  - simpl. by rewrite app_nil_r.
Qed.

Lemma forEachM_expand_entry_prepend this (l : list string) (acc : list string) :
  forEachM l (expand_entry this) acc
  = (prepend acc (forEachM l (expand_entry this) []).1,
     (forEachM l (expand_entry this) []).2).
Proof.
  revert acc. induction l as [|e l IH]; intros acc; cbn [forEachM].
  - simpl. by rewrite app_nil_r.
  - rewrite (expand_entry_prepend this e acc).
    destruct (expand_entry this e []) as [[new|err] events];
      cbn [fst snd prepend]; [|done].
    rewrite !Eff_bind_returned, (IH (acc ++ new)), (IH new).
    cbn [fst snd]. by rewrite prepend_prepend.
Qed.

(** X5.  [add] only appends to the array of files: what a call leaves in
    the array is what the array held, followed by what the same call lists
    on an empty array, and it throws exactly when that call throws. *)
Theorem add_only_appends (excl : list Minimatch) (supported : string -> bool)
  node (file : string) (entryPoint : bool) (files : list string) :
  add excl supported node file entryPoint files
  = match add excl supported node file entryPoint [] with
    | Returned new => Returned (files ++ new)
    | Thrown e => Thrown e
    end.
Proof. apply add_prepend. Qed.

(** X6.  Expanding two lists of entry points one after the other is
    expanding their concatenation: the files are those of the first list
    followed by those of the second, the warnings likewise, and an error of
    the first list keeps the second from being looked at. *)
Theorem expandInputFiles_app this (l1 l2 : list string) :
  expandInputFiles this (l1 ++ l2)
  = (files1 ← expandInputFiles this l1;
     files2 ← expandInputFiles this l2;
     mret (files1 ++ files2)).
Proof.
  unfold expandInputFiles. rewrite forEachM_app.
  apply Eff_bind_ext. intros files1.
  rewrite (forEachM_expand_entry_prepend this l2 files1).
  destruct (forEachM l2 (expand_entry this) []) as [[files2|e] events]; simpl.
  - unfold mbind, Eff_bind, mret, Eff_ret. by rewrite app_nil_r.
  - done.
Qed.

End AddProperties.

Section ExpandProperties.
Context {Program : Type} `{Platform} `{Utils}.
Implicit Types (this : @Application Program) (node : FsNode).

Lemma readdir_forEach_Forall (Q : string -> Prop)
  (f : string -> FsNode -> list string -> Outcome (list string))
  (entries : list (string * FsNode)) (acc : list string) :
  Forall (fun entry => forall acc, Forall Q acc ->
            match f entry.1 entry.2 acc with
            | Returned acc' => Forall Q acc'
            | Thrown _ => True
            end) entries ->
  Forall Q acc ->
  match readdir_forEach f entries acc with
  | Returned acc' => Forall Q acc'
  | Thrown _ => True
  end.
Proof.
  intros Hall. revert acc.
  induction Hall as [|[next child] entries Hf _ IH]; intros acc Hacc; simpl; [done|].
  specialize (Hf acc Hacc). simpl in Hf.
  destruct (f next child acc) as [acc'|e]; [by apply IH|done].
Qed.

Lemma add_lists_in_order (excl : list Minimatch) (supported : string -> bool)
  node (file : string) (entryPoint : bool) (entry : option string)
  (files : list string) :
  (entryPoint = true -> entry = Some file) ->
  Forall (listed_in_order excl supported entry) files ->
  match add excl supported node file entryPoint files with
  | Returned files' => Forall (listed_in_order excl supported entry) files'
  | Thrown _ => True
  end.
Proof.
  revert file entryPoint files.
  induction node as [| | |entries IH] using FsNode_entries_ind;
    intros file entryPoint files Hentry Hfiles.
  - simpl. destruct entryPoint; simpl.
    + destruct (supported file) eqn:Hs; [|done].
      apply Forall_app. split; [done|]. constructor; [|constructor].
      exists file. split; [done|]. split; [done|]. right. by apply Hentry.
    + destruct (isExcluded excl (normalizePath file)) eqn:He; [done|].
      destruct (supported file) eqn:Hs; [|done].
      apply Forall_app. split; [done|]. constructor; [|constructor].
      exists file. split; [done|]. split; [done|]. by left.
  - simpl. by destruct (negb entryPoint && isExcluded excl _).
  - done.
  - cbn [add statSync isDirectory].
    destruct (negb entryPoint && isExcluded excl _); [done|].
    apply readdir_forEach_Forall; [|done].
    eapply Forall_impl; [exact IH|]. intros [next child] Hchild acc Hacc.
    simpl. by apply Hchild.
Qed.

Lemma listed_in_order_entries (excl : list Minimatch) (supported : string -> bool)
  (l : list string) (e : string) (f : string) :
  e ∈ l ->
  listed_in_order excl supported (Some (Path_resolve e)) f ->
  exists p, f = normalizePath p /\ supported p = true
            /\ (isExcluded excl f = false \/ exists e', e' ∈ l /\ p = Path_resolve e').
Proof.
  intros He (p & Hf & Hs & [Hx|Hp]); exists p; repeat split; try done.
  - by left.
  - right. exists e. split; [done|]. congruence.
Qed.

(** X7.  Every file [expandInputFiles] returns is the normal form of a
    path with a supported extension, and no exclude pattern matches it
    unless the path is one of the entry points as resolved. *)
Theorem expandInputFiles_lists_supported_unexcluded this (l : list string) :
  match (expandInputFiles this l).1 with
  | Returned files =>
      Forall
        (fun f =>
           exists p, f = normalizePath p
                     /\ supportedFileRegex this p = true
                     /\ (isExcluded (createMinimatch (exclude this)) f = false
                         \/ exists e, e ∈ l /\ p = Path_resolve e))
        files
  | Thrown _ => True
  end.
Proof.
  unfold expandInputFiles.
  set (R := fun f => exists p, f = normalizePath p
                     /\ supportedFileRegex this p = true
                     /\ (isExcluded (createMinimatch (exclude this)) f = false
                         \/ exists e, e ∈ l /\ p = Path_resolve e)).
  assert (Hgen : forall l' acc, (forall e, e ∈ l' -> e ∈ l) -> Forall R acc ->
            match (forEachM l' (expand_entry this) acc).1 with
            | Returned files => Forall R files
            | Thrown _ => True
            end).
  { induction l' as [|e l' IH]; intros acc Hsub Hacc; [done|].
    cbn [forEachM]. rewrite Eff_bind_outcome.
    assert (He : e ∈ l) by (apply Hsub, list_elem_of_here).
    assert (Hstep : match (expand_entry this e acc).1 with
                    | Returned files => Forall R files
                    | Thrown _ => True
                    end).
    { unfold expand_entry. destruct (fs_at (Path_resolve e)) as [node|]; [|done].
      unfold lift_outcome. cbn [fst].
      pose proof (add_lists_in_order (createMinimatch (exclude this))
                    (supportedFileRegex this) node (Path_resolve e) true
                    (Some (Path_resolve e)) [] (fun _ => eq_refl)
                    (Forall_nil_2 _)) as Hnew.
      rewrite add_prepend.
      destruct (add _ _ node _ true []) as [new|err]; [|done].
      simpl. apply Forall_app. split; [done|].
      eapply Forall_impl; [exact Hnew|]. intros f Hf.
      by eapply listed_in_order_entries. }
    destruct (expand_entry this e acc).1 as [files|err]; [|done].
    apply IH; [|done]. intros e' He'. apply Hsub. by apply list_elem_of_further. }
  by apply Hgen.
Qed.

Lemma add_returns_when_listable (excl : list Minimatch) (supported : string -> bool)
  node (file : string) (entryPoint : bool) (files : list string) :
  listable node = true ->
  exists files', add excl supported node file entryPoint files = Returned files'.
Proof.
  revert file entryPoint files.
  induction node as [| | |entries IH] using FsNode_entries_ind;
    intros file entryPoint files Hl.
  - simpl. destruct (negb entryPoint && isExcluded excl _); [by eexists|].
    destruct (supported file); by eexists.
  - done.
  - by eexists.
  - cbn [add statSync isDirectory].
    destruct (negb entryPoint && isExcluded excl _); [by eexists|].
    cbn [listable] in Hl. revert files.
    induction IH as [|[next child] entries Hchild _ IHentries]; intros files.
    + by eexists.
    + cbn [forallb] in Hl. apply andb_prop in Hl as [Hc Hrest].
      simpl in *.
      match goal with
      | |- context [add excl supported child ?f false files] =>
          destruct (Hchild f false files Hc) as [files' ->]
      end.
      by apply IHentries.
Qed.

(** X8.  When every directory under the entry points that exist can be
    listed, [expandInputFiles] returns a list of files: it does not throw,
    whatever entry points are missing or cannot be examined. *)
Theorem expandInputFiles_returns_when_listable this (l : list string) :
  entry_points_listable l = true ->
  exists files, (expandInputFiles this l).1 = Returned files.
Proof.
  unfold expandInputFiles, entry_points_listable. generalize (@nil string).
  induction l as [|e l IH]; intros acc Hl; [by eexists|].
  cbn [forallb] in Hl. apply andb_prop in Hl as [He Hrest].
  cbn [forEachM]. rewrite Eff_bind_outcome.
  unfold expand_entry at 1. destruct (fs_at (Path_resolve e)) as [node|].
  - destruct (add_returns_when_listable (createMinimatch (exclude this))
                (supportedFileRegex this) node (Path_resolve e) true acc He)
      as [files' Hadd].
    unfold lift_outcome. cbn [fst]. rewrite Hadd. by apply IH.
  - cbn [fst]. unfold emit, mret, Eff_ret, mbind, Eff_bind. cbn [fst]. by apply IH.
Qed.

End ExpandProperties.

(** *** Allowing JavaScript sources *)

Section AllowJs.
Context {Program : Type} `{Platform} `{Utils}.
Implicit Types (this : @Application Program) (node : FsNode).

Lemma readdir_forEach_no_less
  (f g : string -> FsNode -> list string -> Outcome (list string))
  (entries : list (string * FsNode)) (acc1 acc2 : list string) :
  Forall (fun entry => forall acc1 acc2, acc1 `sublist_of` acc2 ->
            lists_no_less (f entry.1 entry.2 acc1) (g entry.1 entry.2 acc2))
    entries ->
  acc1 `sublist_of` acc2 ->
  lists_no_less (readdir_forEach f entries acc1) (readdir_forEach g entries acc2).
Proof.
  intros Hall. revert acc1 acc2.
  induction Hall as [|[next child] entries Hfg _ IH]; intros acc1 acc2 Hacc; simpl.
  - done.
  - specialize (Hfg acc1 acc2 Hacc). simpl in Hfg.
    destruct (f next child acc1) as [a|e1], (g next child acc2) as [b|e2];
      try done.
    by apply IH.
Qed.

Lemma add_no_less (excl : list Minimatch) (s1 s2 : string -> bool)
  node (file : string) (entryPoint : bool) (acc1 acc2 : list string) :
  (forall f, s1 f = true -> s2 f = true) ->
  acc1 `sublist_of` acc2 ->
  lists_no_less (add excl s1 node file entryPoint acc1)
    (add excl s2 node file entryPoint acc2).
Proof.
  intros Hs. revert file entryPoint acc1 acc2.
  induction node as [| | |entries IH] using FsNode_entries_ind;
    intros file entryPoint acc1 acc2 Hacc.
  - simpl. destruct (negb entryPoint && isExcluded excl (normalizePath file));
      [done|].
    destruct (s1 file) eqn:H1.
    + rewrite (Hs _ H1). simpl. by apply sublist_app.
    + destruct (s2 file); simpl; [|done].
      by apply sublist_inserts_r.
  - simpl. by destruct (negb entryPoint && isExcluded excl _).
  - done.
  - cbn [add statSync isDirectory].
    destruct (negb entryPoint && isExcluded excl _); [done|].
    apply readdir_forEach_no_less; [|done].
    eapply Forall_impl; [exact IH|]. intros [next child] Hchild a b Hab.
    simpl. by apply Hchild.
Qed.

Lemma supportedFileRegex_allow_js this (f : string) :
  supportedFileRegex this f = true -> supportedFileRegex (allow_js this) f = true.
Proof.
  unfold supportedFileRegex, allow_js.
  cbn [options getCompilerOptions]. rewrite obj_get_set_eq. cbn [truthy orb].
  destruct (truthy _ || truthy _); [done|].
  unfold regex_ts, regex_tjs. intros Hts. by rewrite Hts.
Qed.

(** X9.  Setting [allowJs] in the compiler options never loses a file:
    [expandInputFiles] then throws exactly where it threw before, logs the
    same warnings, and returns a list of which the list it returned before
    is a sublist, the files kept in their order. *)
Theorem expandInputFiles_allow_js_lists_no_less this (l : list string) :
  lists_no_less (expandInputFiles this l).1 (expandInputFiles (allow_js this) l).1
  /\ (expandInputFiles this l).2 = (expandInputFiles (allow_js this) l).2.
Proof.
  unfold expandInputFiles.
  assert (Hgen : forall acc1 acc2, acc1 `sublist_of` acc2 ->
    lists_no_less (forEachM l (expand_entry this) acc1).1
      (forEachM l (expand_entry (allow_js this)) acc2).1
    /\ (forEachM l (expand_entry this) acc1).2
       = (forEachM l (expand_entry (allow_js this)) acc2).2).
  { induction l as [|e l IH]; intros acc1 acc2 Hacc; [done|].
    cbn [forEachM].
    destruct (fs_at (Path_resolve e)) as [node|] eqn:He.
    - rewrite !(expand_entry_existing _ _ _ _ He).
      pose proof (add_no_less (createMinimatch (exclude this))
                    (supportedFileRegex this) (supportedFileRegex (allow_js this))
                    node (Path_resolve e) true acc1 acc2
                    (supportedFileRegex_allow_js this) Hacc) as Hadd.
      change (exclude (allow_js this)) with (exclude this).
      destruct (add _ (supportedFileRegex this) node _ true acc1) as [a|e1],
        (add _ (supportedFileRegex (allow_js this)) node _ true acc2) as [b|e2];
        try done.
      rewrite !Eff_bind_returned. cbn [fst snd app]. by apply IH.
    - rewrite !(expand_entry_missing _ _ _ He), !Eff_bind_returned.
      cbn [fst snd].
      destruct (IH acc1 acc2 Hacc) as [Ho Hev]. split; [done|]. by f_equal. }
  by apply Hgen.
Qed.

End AllowJs.

(** *** The trailing slash of a directory *)

Lemma string_length_app (s t : string) :
  String.length (s +:+ t) = (String.length s + String.length t)%nat.
Proof. induction s as [|c s IH]; simpl; [done|by rewrite IH]. Qed.

Lemma substring_last (s : string) (c : Ascii.ascii) :
  String.substring (String.length s) 1 (s +:+ String c EmptyString)
  = String c EmptyString.
Proof. induction s as [|c' s IH]; [done|exact IH]. Qed.

Lemma endsWith_slash_appended (s : string) : endsWith (s +:+ "/") "/" = true.
Proof.
  unfold endsWith. rewrite string_length_app. cbn [String.length].
  replace (String.length s + 1 - 1)%nat with (String.length s) by lia.
  rewrite substring_last.
  replace (Nat.leb 1 (String.length s + 1)) with true; [done|].
  symmetry. apply Nat.leb_le. lia.
Qed.

Lemma slashed_idempotent (node : FsNode) (file : string) :
  slashed node (slashed node file) = slashed node file.
Proof.
  unfold slashed.
  destruct (statSync node) as [[[|]]|]; cbn [isDirectory andb]; try done.
  destruct (endsWith file "/") eqn:E; cbn [negb].
  - by rewrite E.
  - by rewrite endsWith_slash_appended.
Qed.

(** X10.  The path of a directory, as [add] tests it against the exclude
    patterns and joins the directory's entries onto it, always ends with a
    slash: one is appended when the path has none, and a path that ends
    with a slash is kept as it is; the path of a file is not touched.  So
    [add] does the same for a directory named with and without the slash
    at its end. *)
Theorem directory_path_ends_with_slash `{Platform} `{Utils}
  (excl : list Minimatch) (supported : string -> bool)
  (node : FsNode) (file : string) (entryPoint : bool) (files : list string) :
  match statSync node with
  | Some stats =>
      if isDirectory stats then
        endsWith (slashed node file) "/" = true
        /\ (if endsWith file "/" then slashed node file = file
            else slashed node file = file +:+ "/")
      else slashed node file = file
  | None => slashed node file = file
  end
  /\ add excl supported node file entryPoint files
     = add excl supported node (slashed node file) entryPoint files.
Proof.
  split.
  - unfold slashed.
    destruct (statSync node) as [[[|]]|]; cbn [isDirectory andb]; try done.
    destruct (endsWith file "/") eqn:E; cbn [negb]; [done|].
    split; [apply endsWith_slash_appended|done].
  - pose proof (slashed_idempotent node file) as Hid. revert Hid.
    destruct node as [|entries| |]; try done.
    + unfold slashed. cbn [add statSync isDirectory andb]. by intros ->.
    + unfold slashed. cbn [add statSync isDirectory andb]. by intros ->.
Qed.

(** ** [convert] *)

Section ConvertProperties.
Context {Program : Type} `{TypeScript Program} `{Platform} `{Utils}.
Implicit Types (this : @Application Program).

Lemma obj_get_set {V : Type} (k k' : string) (v : V) (o : list (string * V)) :
  obj_get k (obj_set k' v o) = if String.eqb k' k then Some v else obj_get k o.
Proof.
  destruct (String.eqb k' k) eqn:E.
  - apply String.eqb_eq in E. subst. apply obj_get_set_eq.
  - apply String.eqb_neq in E. by apply obj_get_set_ne.
Qed.

(** The spread of the snapshot options over some options: the snapshot's
    value for the snapshot's keys, the options' own value for the others. *)
Lemma snapshot_spread_get (user : CompilerOptions) (k : string) :
  obj_get k (obj_spread user SNAPSHOT_COMPILE_OPTIONS)
  = match obj_get k SNAPSHOT_COMPILE_OPTIONS with
    | Some v => Some v
    | None => obj_get k user
    end.
Proof.
  unfold obj_spread, SNAPSHOT_COMPILE_OPTIONS. cbn [fold_left fst snd].
  rewrite !obj_get_set. cbn [obj_get].
  rewrite !(String.eqb_sym k).
  destruct (String.eqb "target" k) eqn:E1;
    [apply String.eqb_eq in E1; subst k; reflexivity|].
  destruct (String.eqb "strict" k) eqn:E2;
    [apply String.eqb_eq in E2; subst k; reflexivity|].
  destruct (String.eqb "noEmit" k) eqn:E3;
    [apply String.eqb_eq in E3; subst k; reflexivity|].
  destruct (String.eqb "module" k) eqn:E4;
    [apply String.eqb_eq in E4; subst k; reflexivity|].
  destruct (String.eqb "jsx" k) eqn:E5;
    [apply String.eqb_eq in E5; subst k; reflexivity|].
  by destruct (String.eqb "esModuleInterop" k).
Qed.

(** X11.  Every program [convert] creates is created with the snapshot
    compile options, whatever the options of the application or of a
    project reference say for the same keys ([noEmit] and [strict] are
    true, and so on); the options the snapshot does not name reach the
    primary program as the application has them. *)
Theorem convert_programs_use_snapshot_options this :
  match (create_programs this).1 with
  | Returned programs =>
      Forall
        (fun program =>
           exists cpo, program = createProgram cpo
             /\ forall k v, obj_get k SNAPSHOT_COMPILE_OPTIONS = Some v ->
                            obj_get k (CreateProgramOptions.options cpo) = Some v)
        programs
  | Thrown _ => False
  end
  /\ exists cpo, primary_program this = createProgram cpo
       /\ forall k, obj_get k SNAPSHOT_COMPILE_OPTIONS = None ->
            obj_get k (CreateProgramOptions.options cpo)
            = obj_get k (getCompilerOptions (options this)).
Proof.
  split.
  - rewrite create_programs_run. cbn [fst]. unfold programs_of. constructor.
    + eexists. split; [reflexivity|]. intros k v Hk. cbn [CreateProgramOptions.options].
      by rewrite snapshot_spread_get, Hk.
    + destruct (Nat.eqb _ 0); [|constructor].
      apply Forall_forall. intros p Hp.
      apply list_elem_of_fmap in Hp as (ref & -> & _).
      eexists. split; [reflexivity|]. intros k v Hk. cbn [CreateProgramOptions.options].
      by rewrite snapshot_spread_get, Hk.
  - eexists. split; [reflexivity|]. intros k Hk. cbn [CreateProgramOptions.options].
    by rewrite snapshot_spread_get, Hk.
Qed.

Lemma convert_log_only_logs this (ev : @Event Program) :
  ev ∈ convert_log this -> exists level message args, ev = Log level message args.
Proof.
  unfold convert_log, convert_log_after_version. intros Hin.
  apply elem_of_cons in Hin as [->|Hin]; [by eexists _, _, _|].
  repeat (apply elem_of_app in Hin as [Hin|Hin]).
  - destruct supported_version; [by apply elem_of_nil in Hin|].
    apply list_elem_of_singleton in Hin as ->. by eexists _, _, _.
  - destruct (Nat.eqb _ 0); [|by apply elem_of_nil in Hin].
    apply list_elem_of_singleton in Hin as ->. by eexists _, _, _.
  - destruct (Nat.eqb _ 0); [|by apply elem_of_nil in Hin].
    apply list_elem_of_singleton in Hin as ->. by eexists _, _, _.
  - apply list_elem_of_singleton in Hin as ->. by eexists _, _, _.
Qed.

Lemma LogDiagnostics_not_in_convert_log this (errs : list Diagnostic) :
  LogDiagnostics errs ∉ convert_log this.
Proof.
  intros Hin. apply convert_log_only_logs in Hin as (lv & m & args & Heq).
  discriminate.
Qed.

Lemma LogDiagnostics_not_in_expand this (l : list string) (acc : list string)
  (errs : list Diagnostic) :
  LogDiagnostics errs ∉ (forEachM l (expand_entry this) acc).2.
Proof.
  intros Hin. pose proof (expand_entry_events this l acc) as Hall.
  rewrite Forall_forall in Hall. destruct (Hall _ Hin) as [e He]. discriminate.
Qed.

(** X12.  When [convert] hands diagnostics to the logger, it returns
    [undefined], and the list it hands over is not empty and holds exactly
    the pre-emit diagnostics of the programs whose code is not on the
    ignore list: none that is on the list, and each one that is not. *)
Theorem convert_logs_exactly_blocking_diagnostics this (errs : list Diagnostic) :
  LogDiagnostics errs ∈ (convert this).2 ->
  (convert this).1 = Returned None
  /\ errs <> []
  /\ forall d, d ∈ errs <->
       includes IGNORED_DIAGNOSTICS (code d) = false
       /\ exists program, program ∈ programs_of this
                          /\ d ∈ getPreEmitDiagnostics program.
Proof.
  rewrite convert_run. pose proof (blocking_diagnostics_errors this) as Hb.
  destruct (blocking_diagnostics this).
  - cbn [fst snd]. intros Hin. apply elem_of_app in Hin as [Hin|Hin].
    { by apply LogDiagnostics_not_in_convert_log in Hin. }
    apply list_elem_of_singleton in Hin.
    assert (Herrs : errs = flatMap (programs_of this) emitFunc) by congruence.
    clear Hin. split; [done|]. split.
    + intros E. rewrite <- Herrs, E in Hb. done.
    + intros d. rewrite Herrs. unfold flatMap, emitFunc.
      rewrite list_elem_of_In, in_flat_map. split.
      * intros (p & Hp & Hd). apply filter_In in Hd as [Hd Hc].
        split; [by destruct (includes _ _)|].
        exists p. by rewrite !list_elem_of_In.
      * intros (Hc & p & Hp & Hd). exists p.
        rewrite <- list_elem_of_In. split; [done|].
        apply filter_In. rewrite <- list_elem_of_In. split; [done|]. by rewrite Hc.
  - pose proof (LogDiagnostics_not_in_expand this (entryPoints this) [] errs) as Hno.
    fold (expandInputFiles this (entryPoints this)) in Hno.
    destruct (expandInputFiles this (entryPoints this)) as [[files|e] events];
      cbn [fst snd] in *; intros Hin.
    + apply elem_of_app in Hin as [Hin|Hin].
      { by apply LogDiagnostics_not_in_convert_log in Hin. }
      apply elem_of_app in Hin as [Hin|Hin]; [done|].
      apply list_elem_of_singleton in Hin. discriminate.
    + apply elem_of_app in Hin as [Hin|Hin]; [|done].
      by apply LogDiagnostics_not_in_convert_log in Hin.
Qed.

Lemma missing_warning_not_in_convert_log this (e : string) :
  missing_warning e ∉ convert_log this.
Proof.
  unfold convert_log, convert_log_after_version. intros Hin.
  apply elem_of_cons in Hin as [Heq|Hin]; [discriminate|].
  repeat (apply elem_of_app in Hin as [Hin|Hin]).
  - destruct supported_version; [by apply elem_of_nil in Hin|].
    apply list_elem_of_singleton in Hin. discriminate.
  - destruct (Nat.eqb _ 0); [|by apply elem_of_nil in Hin].
    apply list_elem_of_singleton in Hin. discriminate.
  - destruct (Nat.eqb _ 0); [|by apply elem_of_nil in Hin].
    apply list_elem_of_singleton in Hin. discriminate.
  - apply list_elem_of_singleton in Hin. discriminate.
Qed.

(** X13.  When a diagnostic that is not on the ignore list stops
    [convert], the entry points are not looked at: no warning about a
    missing entry point is logged, also for entry points that do not
    exist, and the log ends with the diagnostics. *)
Theorem convert_blocked_skips_entry_points this :
  blocking_diagnostics this = true ->
  (forall e, missing_warning e ∉ (convert this).2)
  /\ last (convert this).2
     = Some (LogDiagnostics (flatMap (programs_of this) emitFunc)).
Proof.
  intros Hb. rewrite convert_run, Hb. cbn [snd]. split.
  - intros e Hin. apply elem_of_app in Hin as [Hin|Hin].
    + by apply missing_warning_not_in_convert_log in Hin.
    + apply list_elem_of_singleton in Hin. discriminate.
  - apply last_snoc.
Qed.

End ConvertProperties.

(** ** The supported extensions *)

Lemma substring_all (s : string) : String.substring 0 (String.length s) s = s.
Proof. induction s as [|c s IH]; [done|]. cbn [String.length String.substring]. by f_equal. Qed.

Lemma substring_after (p s : string) (m : nat) :
  String.substring (String.length p) m (p +:+ s) = String.substring 0 m s.
Proof. induction p as [|c p IH]; [done|exact IH]. Qed.

Lemma endsWith_app (p suffix : string) : endsWith (p +:+ suffix) suffix = true.
Proof.
  unfold endsWith. rewrite string_length_app.
  replace (String.length p + String.length suffix - String.length suffix)%nat
    with (String.length p) by lia.
  rewrite substring_after, substring_all, String.eqb_refl, andb_true_r.
  apply Nat.leb_le. lia.
Qed.

Lemma substring_split (s : string) (k : nat) :
  (k <= String.length s)%nat ->
  s = String.substring 0 k s +:+ String.substring k (String.length s - k) s.
Proof.
  revert k. induction s as [|c s IH]; intros k Hk.
  - destruct k; [done|]. simpl in Hk. lia.
  - destruct k as [|k].
    + cbn [String.substring]. change (EmptyString +:+ ?x) with x.
      rewrite Nat.sub_0_r. symmetry. apply (substring_all (String c s)).
    + cbn [String.length] in *. cbn [String.substring Nat.sub].
      change (String c ?a +:+ ?b) with (String c (a +:+ b)).
      f_equal. apply IH. lia.
Qed.

Lemma endsWith_inv (s suffix : string) :
  endsWith s suffix = true -> exists p, s = p +:+ suffix.
Proof.
  unfold endsWith. intros Hs. apply andb_prop in Hs as [Hle Heq].
  apply Nat.leb_le in Hle. apply String.eqb_eq in Heq.
  exists (String.substring 0 (String.length s - String.length suffix) s).
  pose proof (substring_split s (String.length s - String.length suffix)
                ltac:(lia)) as Hsplit.
  replace (String.length s - (String.length s - String.length suffix))%nat
    with (String.length suffix) in Hsplit by lia.
  by rewrite Heq in Hsplit.
Qed.

Lemma endsWith_iff (s suffix : string) :
  endsWith s suffix = true <-> exists p, s = p +:+ suffix.
Proof.
  split; [apply endsWith_inv|]. intros [p ->]. apply endsWith_app.
Qed.

(** X14.  The paths the supported-file expression accepts are those that
    end with [.ts] or [.tsx], and, when [allowJs] or [checkJs] is set in
    the compiler options, also those that end with [.js] or [.jsx]; any
    stem may come before the extension, so that [.d.ts] files count. *)
Theorem supportedFileRegex_accepts {Program : Type} (this : @Application Program)
  (file : string) :
  supportedFileRegex this file = true
  <-> exists stem,
        file = stem +:+ ".ts" \/ file = stem +:+ ".tsx"
        \/ (truthy (obj_get "allowJs" (getCompilerOptions (options this)))
            || truthy (obj_get "checkJs" (getCompilerOptions (options this))) = true
            /\ (file = stem +:+ ".js" \/ file = stem +:+ ".jsx")).
Proof.
  unfold supportedFileRegex.
  destruct (truthy _ || truthy _); unfold regex_ts, regex_tjs;
    rewrite ?orb_true_iff, !endsWith_iff; split.
  - intros [[[[p Hp]|[p Hp]]|[p Hp]]|[p Hp]]; exists p; auto.
  - intros [p [Hp|[Hp|[_ [Hp|Hp]]]]]; eauto 6.
  - intros [[p Hp]|[p Hp]]; exists p; auto.
  - intros [p [Hp|[Hp|[Hf _]]]]; [eauto|eauto|done].
Qed.

(** ** The supported versions *)

Lemma string_app_cons (x : ascii) (a b : string) :
  String x a +:+ b = String x (a +:+ b).
Proof. reflexivity. Qed.

Lemma string_app_nil_l (b : string) : EmptyString +:+ b = b.
Proof. reflexivity. Qed.

(** Appends onto a head that is known are carried out. *)
Ltac string_app := rewrite ?string_app_cons, ?string_app_nil_l.

Lemma string_app_assoc (a b c : string) : (a +:+ b) +:+ c = a +:+ (b +:+ c).
Proof.
  induction a as [|x a IH]; [done|].
  rewrite !(string_app_cons x). by f_equal.
Qed.

Lemma string_app_nil_r (a : string) : a +:+ EmptyString = a.
Proof.
  induction a as [|x a IH]; [done|].
  rewrite (string_app_cons x). by f_equal.
Qed.

Lemma no_bar_app (a b : string) : no_bar (a +:+ b) = no_bar a && no_bar b.
Proof.
  induction a as [|x a IH]; [done|].
  rewrite (string_app_cons x). cbn [no_bar]. rewrite IH. by rewrite andb_assoc.
Qed.

Lemma all_space_no_bar (s : string) : all_space s = true -> no_bar s = true.
Proof.
  induction s as [|c s IH]; [done|].
  cbn [all_space no_bar]. intros Hs. apply andb_prop in Hs as [Hc Hs].
  rewrite (IH Hs), andb_true_r.
  destruct (Ascii.eqb c "|") eqn:E; [|done].
  apply Ascii.eqb_eq in E. subst c. done.
Qed.

Lemma split_bars_no_bar (a current : string) :
  no_bar a = true -> split_bars a current = [current +:+ a].
Proof.
  revert current. induction a as [|c a IH]; intros current Ha.
  - cbn [split_bars]. by rewrite string_app_nil_r.
  - cbn [no_bar] in Ha. apply andb_prop in Ha as [Hc Ha].
    cbn [split_bars]. destruct a as [|c' a'].
    + done.
    + apply negb_true_iff in Hc. rewrite Hc. cbn [andb].
      rewrite (IH _ Ha). by rewrite string_app_assoc.
Qed.

Lemma split_bars_cut (a b current : string) :
  no_bar a = true ->
  split_bars (a +:+ "||" +:+ b) current
  = (current +:+ a) :: split_bars b EmptyString.
Proof.
  revert current. induction a as [|c a IH]; intros current Ha.
  - string_app. cbn [split_bars Ascii.eqb Bool.eqb andb].
    by rewrite string_app_nil_r.
  - cbn [no_bar] in Ha. apply andb_prop in Ha as [Hc Ha].
    apply negb_true_iff in Hc.
    rewrite string_app_cons. cbn [split_bars].
    destruct (a +:+ "||" +:+ b) as [|c' rest] eqn:Hrest.
    + destruct a; discriminate.
    + rewrite Hc. cbn [andb]. rewrite (IH _ Ha).
      by rewrite string_app_assoc.
Qed.

Lemma all_space_dotx (w trail : string) : all_space (w +:+ ".x" +:+ trail) = false.
Proof.
  induction w as [|c w IH]; [done|].
  rewrite (string_app_cons c). cbn [all_space]. rewrite IH. apply andb_false_r.
Qed.

Lemma strip_dotx_unfold (s : string) :
  strip_dotx s
  = if matches_dotx_to_end s then EmptyString
    else match s with
         | EmptyString => EmptyString
         | String c rest => String c (strip_dotx rest)
         end.
Proof. by destruct s. Qed.

(** The suffix [.x] and the white space after it are removed, whatever
    comes before it. *)
Lemma strip_dotx_suffix (v trail : string) :
  all_space trail = true -> strip_dotx (v +:+ ".x" +:+ trail) = v.
Proof.
  intros Ht. induction v as [|c v IH].
  - rewrite strip_dotx_unfold. string_app.
    cbn [matches_dotx_to_end Ascii.eqb Bool.eqb andb]. by rewrite Ht.
  - rewrite strip_dotx_unfold.
    assert (Hno : matches_dotx_to_end (String c v +:+ ".x" +:+ trail) = false).
    { destruct v as [|c2 v'].
      - string_app. cbn [matches_dotx_to_end].
        apply andb_false_intro1, andb_false_intro2. done.
      - rewrite (string_app_cons c), (string_app_cons c2).
        cbn [matches_dotx_to_end]. rewrite all_space_dotx. apply andb_false_r. }
    rewrite Hno, (string_app_cons c). by rewrite IH.
Qed.

Lemma skip_spaces_lead (lead s : string) :
  all_space lead = true -> skip_spaces (lead +:+ s) = skip_spaces s.
Proof.
  induction lead as [|c lead IH]; [done|].
  rewrite (string_app_cons c). cbn [all_space skip_spaces].
  intros Hl. apply andb_prop in Hl as [Hc Hl]. rewrite Hc. by apply IH.
Qed.

Lemma replace_version_part (lead v trail : string) :
  all_space lead = true -> all_space trail = true -> version_token v = true ->
  replace_version (lead +:+ v +:+ ".x" +:+ trail) = v.
Proof.
  intros Hl Ht Hv. destruct v as [|c v]; [done|].
  cbn [version_token] in Hv. apply andb_prop in Hv as [Hc _].
  apply negb_true_iff in Hc.
  destruct lead as [|x lead].
  - rewrite string_app_nil_l, (string_app_cons c). cbn [replace_version].
    rewrite Hc. by rewrite strip_dotx_suffix.
  - cbn [all_space] in Hl. apply andb_prop in Hl as [Hx Hl].
    rewrite (string_app_cons x). cbn [replace_version].
    rewrite Hx, skip_spaces_lead by done.
    rewrite (string_app_cons c). cbn [skip_spaces]. rewrite Hc.
    rewrite <- (string_app_cons c).
    by apply strip_dotx_suffix.
Qed.

Lemma version_token_no_bar (v : string) : version_token v = true -> no_bar v = true.
Proof. destruct v; [done|]. cbn [version_token]. by intros [_ ?]%andb_prop. Qed.

Lemma concat_cons2 (sep x y : string) (l : list string) :
  String.concat sep (x :: y :: l) = x +:+ sep +:+ String.concat sep (y :: l).
Proof. reflexivity. Qed.

Lemma split_range (lead : string) (vs : list string) :
  vs <> [] -> all_space lead = true -> forallb version_token vs = true ->
  split_bars (lead +:+ String.concat " || " (map (fun v => v +:+ ".x") vs)) EmptyString
  = range_parts lead vs.
Proof.
  revert lead. induction vs as [|v vs IH]; intros lead Hne Hl Hvs; [done|].
  cbn [forallb] in Hvs. apply andb_prop in Hvs as [Hv Hvs].
  pose proof (version_token_no_bar _ Hv) as Hb.
  pose proof (all_space_no_bar _ Hl) as Hlb.
  destruct vs as [|v2 vs].
  - cbn [map String.concat range_parts].
    rewrite split_bars_no_bar; [done|].
    by rewrite !no_bar_app, Hlb, Hb.
  - change (range_parts lead (v :: v2 :: vs))
      with ((lead +:+ v +:+ ".x" +:+ " ") :: range_parts " " (v2 :: vs)).
    rewrite <- (IH " ") by done.
    cbn [map]. rewrite concat_cons2.
    set (rest := String.concat " || " _).
    replace (lead +:+ (v +:+ ".x") +:+ " || " +:+ rest)
      with ((lead +:+ v +:+ ".x" +:+ " ") +:+ "||" +:+ " " +:+ rest).
    + rewrite split_bars_cut; [done|].
      by rewrite !no_bar_app, Hlb, Hb.
    + rewrite !string_app_assoc. done.
Qed.

Lemma replace_range_parts (lead : string) (vs : list string) :
  all_space lead = true -> forallb version_token vs = true ->
  map replace_version (range_parts lead vs) = vs.
Proof.
  revert lead. induction vs as [|v vs IH]; intros lead Hl Hvs; [done|].
  cbn [forallb] in Hvs. apply andb_prop in Hvs as [Hv Hvs].
  destruct vs as [|v2 vs].
  - cbn [range_parts map]. f_equal.
    rewrite <- (string_app_nil_r ".x").
    by apply replace_version_part.
  - change (range_parts lead (v :: v2 :: vs))
      with ((lead +:+ v +:+ ".x" +:+ " ") :: range_parts " " (v2 :: vs)).
    cbn [map]. f_equal.
    + by apply replace_version_part.
    + by apply IH.
Qed.

(** X15.  For a range written as versions with the suffix [.x], joined by
    [ || ], the supported versions are those versions, in their order:
    splitting at the bars and removing the white space around a part and
    its suffix undoes the writing. *)
Theorem supported_versions_of_range (vs : list string) :
  vs <> [] -> forallb version_token vs = true ->
  supported_versions (String.concat " || " (map (fun v => v +:+ ".x") vs)) = vs.
Proof.
  intros Hne Hvs. unfold supported_versions.
  rewrite <- (string_app_nil_l (String.concat _ _)).
  rewrite (split_range EmptyString vs Hne eq_refl Hvs).
  by apply replace_range_parts.
Qed.

Lemma strip_dotx_no_x (s : string) : no_x s = true -> strip_dotx s = s.
Proof.
  induction s as [|c s IH]; [done|].
  cbn [no_x]. intros Hs. apply andb_prop in Hs as [Hc Hs].
  rewrite strip_dotx_unfold.
  assert (Hno : matches_dotx_to_end (String c s) = false).
  { destruct s as [|c' s']; [done|]. cbn [matches_dotx_to_end].
    cbn [no_x] in Hs. apply andb_prop in Hs as [Hc' _].
    apply negb_true_iff in Hc'. rewrite Hc'. by rewrite andb_false_r. }
  rewrite Hno. by rewrite IH.
Qed.

Lemma no_x_skip_spaces (s : string) : no_x s = true -> no_x (skip_spaces s) = true.
Proof.
  induction s as [|c s IH]; [done|].
  intros Hs. cbn [skip_spaces]. destruct (is_space c); [|done].
  cbn [no_x] in Hs. apply andb_prop in Hs as [_ Hs]. by apply IH.
Qed.

(** X16.  A part of the range without the letter [x] only loses its
    leading white space: white space at its end stays, since it is
    removed only after the suffix [.x]. *)
Theorem replace_version_without_x (version : string) :
  no_x version = true -> replace_version version = skip_spaces version.
Proof.
  destruct version as [|c rest]; [done|].
  cbn [no_x]. intros Hs. apply andb_prop in Hs as [Hc Hs].
  cbn [replace_version skip_spaces]. destruct (is_space c).
  - apply strip_dotx_no_x. by apply no_x_skip_spaces.
  - by rewrite strip_dotx_no_x.
Qed.

(** ** Ignored diagnostics and exclude patterns *)

Lemma filter_filter_same {A : Type} (f : A -> bool) (l : list A) :
  List.filter f (List.filter f l) = List.filter f l.
Proof.
  induction l as [|a l IH]; [done|].
  simpl. destruct (f a) eqn:E; simpl; [by rewrite E, IH|done].
Qed.

(** X17.  The diagnostics of the ignore list have no effect on [convert]:
    with a compiler that does not report them at all, [convert] returns
    the same, logs the same and invokes the converter the same. *)
Theorem convert_ignores_ignored_diagnostics {Program : Type}
  (T : TypeScript Program) `{Platform} `{Utils} (this : @Application Program) :
  @convert Program (without_ignored_diagnostics T) _ _ this
  = @convert Program T _ _ this.
Proof.
  rewrite !convert_run.
  assert (Herrs : flatMap (@programs_of _ (without_ignored_diagnostics T) this)
                    (@emitFunc _ (without_ignored_diagnostics T))
                  = flatMap (@programs_of _ T this) (@emitFunc _ T)).
  { change (@programs_of _ (without_ignored_diagnostics T) this)
      with (@programs_of _ T this).
    unfold flatMap. induction (@programs_of _ T this) as [|p ps IH]; [done|].
    cbn [flat_map]. rewrite IH. f_equal.
    unfold emitFunc. cbn [getPreEmitDiagnostics without_ignored_diagnostics].
    apply filter_filter_same. }
  rewrite !blocking_diagnostics_errors, Herrs.
  reflexivity.
Qed.

Section ExcludeMore.
Context {Program : Type} `{Platform} `{Utils}.
Implicit Types (node : FsNode).

Lemma isExcluded_app (excl more : list Minimatch) (f : string) :
  isExcluded (excl ++ more) f = isExcluded excl f || isExcluded more f.
Proof. unfold isExcluded. apply existsb_app. Qed.

Lemma lists_no_more_prepend (acc1 acc2 : list string) (o : Outcome (list string)) :
  acc2 `sublist_of` acc1 -> lists_no_more (prepend acc1 o) (Returned acc2).
Proof.
  intros Hacc. destruct o as [new|e]; simpl; [|done].
  by apply sublist_inserts_r.
Qed.

Lemma readdir_forEach_no_more
  (f g : string -> FsNode -> list string -> Outcome (list string))
  (entries : list (string * FsNode)) (acc1 acc2 : list string) :
  Forall (fun entry => forall acc1 acc2, acc2 `sublist_of` acc1 ->
            lists_no_more (f entry.1 entry.2 acc1) (g entry.1 entry.2 acc2))
    entries ->
  acc2 `sublist_of` acc1 ->
  lists_no_more (readdir_forEach f entries acc1) (readdir_forEach g entries acc2).
Proof.
  intros Hall. revert acc1 acc2.
  induction Hall as [|[next child] entries Hfg _ IH]; intros acc1 acc2 Hacc; simpl.
  - done.
  - specialize (Hfg acc1 acc2 Hacc). simpl in Hfg.
    destruct (f next child acc1) as [b|e1]; [|done].
    destruct (g next child acc2) as [a|e2]; [|done].
    by apply IH.
Qed.

Lemma add_no_more (excl more : list Minimatch) (supported : string -> bool)
  node (file : string) (entryPoint : bool) (acc1 acc2 : list string) :
  acc2 `sublist_of` acc1 ->
  lists_no_more (add excl supported node file entryPoint acc1)
    (add (excl ++ more) supported node file entryPoint acc2).
Proof.
  revert file entryPoint acc1 acc2.
  induction node as [| | |entries IH] using FsNode_entries_ind;
    intros file entryPoint acc1 acc2 Hacc.
  - cbn [add statSync isDirectory andb]. rewrite isExcluded_app.
    destruct entryPoint; cbn [negb andb].
    + destruct (supported file); simpl; [by apply sublist_app|done].
    + destruct (isExcluded excl (normalizePath file)); cbn [orb]; [done|].
      destruct (isExcluded more (normalizePath file)).
      * destruct (supported file); simpl; [by apply sublist_inserts_r|done].
      * destruct (supported file); simpl; [by apply sublist_app|done].
  - cbn [add statSync isDirectory andb]. rewrite isExcluded_app.
    destruct entryPoint; cbn [negb andb]; [done|].
    destruct (isExcluded excl _); cbn [orb]; [done|]. done.
  - done.
  - rewrite (add_prepend excl supported (FsDir entries) file entryPoint acc1).
    cbn [add statSync isDirectory andb]. rewrite isExcluded_app.
    destruct entryPoint; cbn [negb andb].
    + rewrite <- readdir_forEach_prepend.
      * apply readdir_forEach_no_more; [|done].
        eapply Forall_impl; [exact IH|]. intros [next child] Hchild a b Hab.
        simpl. by apply Hchild.
      * apply Forall_forall. intros [next child] _ acc. apply add_prepend.
    + destruct (isExcluded excl _); cbn [orb].
      * simpl. by rewrite app_nil_r.
      * destruct (isExcluded more _).
        { by apply lists_no_more_prepend. }
        rewrite <- readdir_forEach_prepend.
        -- apply readdir_forEach_no_more; [|done].
           eapply Forall_impl; [exact IH|]. intros [next child] Hchild a b Hab.
           simpl. by apply Hchild.
        -- apply Forall_forall. intros [next child] _ acc. apply add_prepend.
Qed.

(** X18.  More exclude patterns never add a file and never make [add]
    throw: where [add] returns a list with some patterns, it returns with
    further patterns a sublist of that list, the files kept in their
    order. *)
Theorem add_more_patterns_lists_no_more (excl more : list Minimatch)
  (supported : string -> bool) node (file : string) (entryPoint : bool)
  (files : list string) :
  match add excl supported node file entryPoint files with
  | Returned listed =>
      match add (excl ++ more) supported node file entryPoint files with
      | Returned listed' => listed' `sublist_of` listed
      | Thrown _ => False
      end
  | Thrown _ => True
  end.
Proof. by apply add_no_more. Qed.

End ExcludeMore.

(** ** Witnesses of the further properties *)

Lemma getAllSignatures_empty_iff_witness :
  represents example_store overloaded_object overloaded_declaration
  /\ ArrayStore.contents (ArrayStore.getAllSignatures overloaded_object example_store).2
       (ArrayStore.getAllSignatures overloaded_object example_store).1 <> [].
Proof.
  split; [exact example_store_represents|].
  exact (proj2 (getAllSignatures_empty_iff example_store overloaded_object
                  overloaded_declaration example_store_represents) eq_refl).
Defined.

Lemma getAllSignatures_result_is_private_witness :
  represents example_store overloaded_object overloaded_declaration
  /\ (ArrayStore.getAllSignatures overloaded_object
        (ArrayStore.array_push
           (ArrayStore.getAllSignatures overloaded_object example_store).1 sig_call_1
           (ArrayStore.getAllSignatures overloaded_object example_store).2)).1
     <> (ArrayStore.getAllSignatures overloaded_object example_store).1.
Proof.
  split; [exact example_store_represents|].
  exact (proj1 (getAllSignatures_result_is_private example_store overloaded_object
                  overloaded_declaration sig_call_1 example_store_represents)).
Defined.

Lemma traverse_visits_getAllSignatures_witness :
  represents example_store overloaded_object overloaded_declaration
  /\ Some (omap visited_signature (traverse overloaded_declaration record_visit []))
     = (ArrayStore.getAllSignatures overloaded_object example_store).2
         !! (ArrayStore.getAllSignatures overloaded_object example_store).1.
Proof.
  split; [exact example_store_represents|].
  exact (traverse_visits_getAllSignatures example_store overloaded_object
           overloaded_declaration example_store_represents).
Defined.

Lemma expandInputFiles_returns_when_listable_witness :
  @entry_points_listable example_Platform (entryPoints example_app) = true
  /\ exists files,
       (@expandInputFiles ExampleProgram example_Platform example_Utils example_app
          (entryPoints example_app)).1 = Returned files.
Proof.
  split; [reflexivity|].
  exact (@expandInputFiles_returns_when_listable ExampleProgram example_Platform
           example_Utils example_app (entryPoints example_app) eq_refl).
Defined.

Lemma example_broken_logs_diagnostics :
  LogDiagnostics
    [mkDiagnostic 2322 "Type 'string' is not assignable to type 'number'."]
  ∈ (@convert _ example_TypeScript example_Platform example_Utils example_broken).2.
Proof.
  apply list_elem_of_In. vm_compute. right. right. left. reflexivity.
Defined.

Lemma convert_logs_exactly_blocking_diagnostics_witness :
  LogDiagnostics
    [mkDiagnostic 2322 "Type 'string' is not assignable to type 'number'."]
  ∈ (@convert _ example_TypeScript example_Platform example_Utils example_broken).2
  /\ (@convert _ example_TypeScript example_Platform example_Utils example_broken).1
     = Returned None.
Proof.
  split; [exact example_broken_logs_diagnostics|].
  exact (proj1 (@convert_logs_exactly_blocking_diagnostics _ example_TypeScript
                  example_Platform example_Utils example_broken _
                  example_broken_logs_diagnostics)).
Defined.

Lemma convert_blocked_skips_entry_points_witness :
  @blocking_diagnostics _ example_TypeScript example_broken = true
  /\ last (@convert _ example_TypeScript example_Platform example_Utils example_broken).2
     = Some (LogDiagnostics
               (flatMap (@programs_of _ example_TypeScript example_broken)
                  (@emitFunc _ example_TypeScript))).
Proof.
  split; [reflexivity|].
  exact (proj2 (@convert_blocked_skips_entry_points _ example_TypeScript
                  example_Platform example_Utils example_broken eq_refl)).
Defined.

Lemma supported_versions_of_range_witness :
  ["3.9"; "4.0"; "4.1"] <> [] /\ forallb version_token ["3.9"; "4.0"; "4.1"] = true
  /\ supported_versions "3.9.x || 4.0.x || 4.1.x" = ["3.9"; "4.0"; "4.1"].
Proof.
  split; [discriminate|]. split; [reflexivity|].
  apply (supported_versions_of_range ["3.9"; "4.0"; "4.1"]); [discriminate|reflexivity].
Defined.

Lemma replace_version_without_x_witness :
  no_x "  4.1 " = true /\ replace_version "  4.1 " = "4.1 ".
Proof.
  split; [reflexivity|].
  apply (replace_version_without_x "  4.1 "). reflexivity.
Defined.
